(** * Params: the parameter arena of thinc/neural/params.py

    A shallow embedding of the [Params] class and of the small part of
    numpy it relies on (2-D arrays, column slices that are views, slice
    assignment with broadcasting, reshape), followed by the properties
    of the arena that the specification states. *)

From stdpp Require Import gmap strings list.
From Stdlib Require Import ZArith Lia.

Set Default Proof Using "Type".

(** ** Arrays, views and the store *)

(** The cells of a buffer are floats in the source.  [Params] never
    computes with them: it only creates zeros and copies cells, so any
    carrier with a zero does; we take [Z]. *)
Abbreviation cell := Z (only parsing).

(** A base array of shape (rows, cols): the list of its rows. *)
Abbreviation matrix := (list (list cell)) (only parsing).

(** [self._mem] is always either a base array or a column slice
    [m[:, a:b]] of one; both are a window on all rows of a base array.
    [base] is the identity of the array that owns the memory. *)
Record ndview := NdView { base : nat; off : nat; width : nat }.

(** What [get] and [add] hand out: a run of cells of one row of a base
    array, reshaped to [blob_shape]. *)
Record blob := Blob {
  blob_base : nat; blob_row : nat; blob_off : nat; blob_len : nat;
  blob_shape : list nat }.

(** The exceptions, one constructor per raise site. *)
Inductive exn :=
| ValueError_size          (* __init__: "TODO error re negative size" *)
| ValueError_merge         (* merge_params: some child has allow_resize false *)
| ValueError_replace_mem   (* replace_mem: allow_resize is false *)
| ValueError_realloc       (* _realloc: allow_resize is false *)
| ValueError_broadcast     (* numpy: could not broadcast input array *)
| ValueError_reshape       (* numpy: cannot reshape array *)
| IndexError_row.          (* numpy: row index out of bounds *)

(** The error kinds of the specification. *)
Definition InvalidArgument (e : exn) : Prop :=
  e = ValueError_size ∨ e = ValueError_merge.
Definition NotResizable (e : exn) : Prop := e = ValueError_realloc.

Inductive result (A : Type) :=
| Ok (a : A)
| Raise (e : exn).
Arguments Ok {A} a.
Arguments Raise {A} e.

Record Params := MkParams {
  _mem : ndview;
  _offsets : gmap string (nat * list nat);
  _i : nat;
  allow_resize : bool }.

Definition set_mem (m : ndview) (p : Params) : Params :=
  MkParams m (_offsets p) (_i p) (allow_resize p).
Definition set_offsets (d : gmap string (nat * list nat)) (p : Params) : Params :=
  MkParams (_mem p) d (_i p) (allow_resize p).
Definition set_i (i : nat) (p : Params) : Params :=
  MkParams (_mem p) (_offsets p) i (allow_resize p).
Definition set_allow_resize (b : bool) (p : Params) : Params :=
  MkParams (_mem p) (_offsets p) (_i p) b.

#[global] Instance Params_inhabited : Inhabited Params :=
  populate (MkParams (NdView 0 0 0) ∅ 0 false).

(** The store: the base arrays and the [Params] objects, both addressed
    by their position.  A Python reference to an arena is an index into
    [objs]; several references may name the same arena. *)
Record world := World { bufs : list matrix; objs : list Params }.

(** ** The monad of the methods: state and exceptions

    A raise keeps the mutations done before it, as in Python. *)
Definition M (A : Type) : Type := world → result A * world.

#[global] Instance M_ret : MRet M := λ A a w, (Ok a, w).
#[global] Instance M_bind : MBind M := λ A B k m w,
  match m w with
  | (Ok a, w') => k a w'
  | (Raise e, w') => (Raise e, w')
  end.

Definition raise {A} (e : exn) : M A := λ w, (Raise e, w).
Definition when_ (b : bool) (m : M unit) : M unit := if b then m else mret tt.

(** [self] as an object: read its fields, assign to them. *)
Definition obj (r : nat) : M Params := λ w, (Ok (objs w !!! r), w).
Definition update (r : nat) (f : Params → Params) : M unit := λ w,
  (Ok tt, World (bufs w) (alter f r (objs w))).
Definition new_obj (p : Params) : M nat := λ w,
  (Ok (length (objs w)), World (bufs w) (objs w ++ [p])).

(** ** numpy *)

(** [numpy.prod(shape)]. *)
Definition prod (shape : list nat) : nat := foldr Nat.mul 1 shape.

(** [m.shape[0]] of a view: the rows of the array it is a window on. *)
Definition shape0 (w : world) (v : ndview) : nat := length (bufs w !!! base v).

(** [m[:, a:b]] for [0 <= a], [0 <= b]: both bounds are clipped to the
    width, an empty slice results when [b <= a]. *)
Definition cols (v : ndview) (a b : nat) : ndview :=
  NdView (base v) (off v + a `min` width v) (b `min` width v - a `min` width v).

Arguments cols : simpl never.

(** The content seen through a view. *)
Definition view_data (w : world) (v : ndview) : matrix :=
  (λ row, take (width v) (drop (off v) row)) <$> (bufs w !!! base v).

Definition blob_data (w : world) (b : blob) : list cell :=
  take (blob_len b) (drop (blob_off b) ((bufs w !!! blob_base b) !!! blob_row b)).

(** Broadcasting of one axis: the lengths agree, or the source has
    length one and is repeated. *)
Definition stretch {A} (n : nat) (xs : list A) : option (list A) :=
  if decide (length xs = n) then Some xs
  else match xs with
       | [x] => Some (replicate n x)
       | _ => None
       end.

Definition broadcast (rows width : nat) (src : matrix) : option matrix :=
  rs ← stretch rows src; mapM (stretch width) rs.

(** Overwrite [length xs] cells of [row] from position [o]. *)
Definition splice {A} (o : nat) (xs row : list A) : list A :=
  take o row ++ xs ++ drop (o + length xs) row.

Definition store (v : ndview) (m : matrix) (w : world) : world :=
  World (alter (zip_with (splice (off v)) m) (base v) (bufs w)) (objs w).

Definition blob_store (b : blob) (xs : list cell) (w : world) : world :=
  World (alter (alter (splice (blob_off b) xs) (blob_row b)) (blob_base b) (bufs w))
        (objs w).

(** [dst[:] = src] for a 2-D view [dst]. *)
Definition assign (dst : ndview) (src : matrix) : M unit := λ w,
  match broadcast (shape0 w dst) (width dst) src with
  | Some m => (Ok tt, store dst m w)
  | None => (Raise ValueError_broadcast, w)
  end.

(** [dst[0] = src] for a 1-D [src]. *)
Definition assign_row0 (dst : ndview) (src : list cell) : M unit := λ w,
  if decide (shape0 w dst = 0) then (Raise IndexError_row, w)
  else match stretch (width dst) src with
       | Some xs =>
           (Ok tt, World (alter (alter (splice (off dst) xs) 0) (base dst) (bufs w))
                         (objs w))
       | None => (Raise ValueError_broadcast, w)
       end.

(** [m[0]]. *)
Definition row0 (v : ndview) : M (list cell) := λ w,
  match view_data w v with
  | r :: _ => (Ok r, w)
  | [] => (Raise IndexError_row, w)
  end.

(** [m[row, a:b].reshape(shape)]: a view, since the run is contiguous. *)
Definition row_blob (v : ndview) (row a b : nat) (shape : list nat) : M blob := λ w,
  if decide (shape0 w v ≤ row) then (Raise IndexError_row, w)
  else let s := cols v a b in
       if decide (width s = prod shape)
       then (Ok (Blob (base s) row (off s) (width s) shape), w)
       else (Raise ValueError_reshape, w).

(** [m.reshape(shape)] for a 2-D view [m]: the sizes must agree.  This
    is a view whenever [m] has one row (or no cell at all). *)
Definition reshape (v : ndview) (shape : list nat) : M blob := λ w,
  if decide (shape0 w v * width v = prod shape)
  then (Ok (Blob (base v) 0 (off v) (prod shape) shape), w)
  else (Raise ValueError_reshape, w).

(** Modelled from the spec: [ops.allocate(shape)], whose class is not
    part of the sources; the specification has it return a fresh
    zero-initialised buffer of the given shape. *)
Definition allocate (rows width : nat) : M ndview := λ w,
  (Ok (NdView (length (bufs w)) 0 width),
   World (bufs w ++ [replicate rows (replicate width 0%Z)]) (objs w)).

(** [name.startswith('d_')] and [name[2:]]. *)
Definition gradient_of (name : string) : option string :=
  if String.prefix "d_" name
  then Some (String.substring 2 (String.length name - 2) name)
  else None.

(** ** The methods of [Params] *)

Definition __init__ (size : Z) : M nat :=
  if (size <? 0)%Z then raise ValueError_size
  else mem ← allocate 1 (Z.to_nat size);
       new_obj (MkParams mem ∅ 0 true).

Definition _alloc_gradients (self : nat) : M unit :=
  p ← obj self;
  new_mem ← allocate 2 (width (_mem p));
  r ← row0 (_mem p);
  assign_row0 new_mem r;;
  update self (set_mem new_mem).

Definition _realloc (self : nat) (new_size : nat) : M unit :=
  p ← obj self;
  if negb (allow_resize p) then raise ValueError_realloc
  else
    rows ← (λ w, (Ok (shape0 w (_mem p)), w));
    new_mem ← allocate rows new_size;
    src ← (λ w, (Ok (view_data w (cols (_mem p) 0 (_i p + 1))), w));
    assign (cols new_mem 0 (_i p + 1)) src;;
    update self (set_mem new_mem).

(** The [print] of the source writes to standard output only. *)
Definition _get_blob (self : nat) (nr_req : nat) : M ndview :=
  p ← obj self;
  let nr_avail := (Z.of_nat (width (_mem p)) - (Z.of_nat (_i p) + 1))%Z in
  when_ (nr_avail <? Z.of_nat nr_req)%Z
        (_realloc self (width (_mem p) `max` nr_req * 2));;
  p ← obj self;
  let blob := cols (_mem p) (_i p) (_i p + nr_req) in
  update self (set_i (_i p + nr_req));;
  mret blob.

(** The lookup that ends [get], for the row [col] chosen by its first
    lines. *)
Definition get_at (self : nat) (name : string) (col : nat) : M (option blob) :=
  p ← obj self;
  match _offsets p !! name with
  | None => mret None
  | Some (offset, shape) =>
      b ← row_blob (_mem p) col offset (offset + prod shape) shape;
      mret (Some b)
  end.

Definition get (self : nat) (name : string) : M (option blob) :=
  match gradient_of name with
  | Some name =>
      p ← obj self;
      sh ← (λ w, (Ok (shape0 w (_mem p)), w));
      when_ (bool_decide (sh = 1)) (_alloc_gradients self);;
      get_at self name 1
  | None => get_at self name 0
  end.

Definition add (self : nat) (name : string) (shape : list nat) : M blob :=
  p ← obj self;
  update self (set_offsets (<[name := (_i p, shape)]> (_offsets p)));;
  blob ← _get_blob self (prod shape);
  reshape blob shape.

Definition replace_mem (self : nat) (mem : ndview) : M unit :=
  p ← obj self;
  if negb (allow_resize p) then raise ValueError_replace_mem
  else
    update self (set_allow_resize false);;
    src ← (λ w, (Ok (view_data w (cols (_mem p) 0 (_i p))), w));
    assign mem src;;
    update self (set_mem mem).

(** The body of the loop of [merge_params]:
    [other.replace_mem(self._get_blob(other._i))]; the argument
    [other._i] is read before [_get_blob] runs. *)
Definition merge_step (self other : nat) : M unit :=
  o ← obj other;
  blob ← _get_blob self (_i o);
  replace_mem other blob.

(** [for other in others: ...] *)
Fixpoint merge_loop (self : nat) (others : list nat) : M unit :=
  match others with
  | [] => mret tt
  | other :: rest => merge_step self other;; merge_loop self rest
  end.

Definition merge_params (self : nat) (others : list nat) : M unit :=
  match others with
  | [] => mret tt
  | _ =>
      os ← (λ w, (Ok ((λ r, objs w !!! r) <$> others), w));
      if negb (forallb allow_resize os) then raise ValueError_merge
      else
        let sizes := (λ o, _i o + 1) <$> os in
        p ← obj self;
        let nr_req := _i p + sum_list sizes in
        when_ (width (_mem p) <? nr_req) (_realloc self nr_req);;
        update self (set_allow_resize false);;
        merge_loop self others
  end.

(** ** Running the model *)

Definition empty_world : world := World [] [].

Definition run {A} (m : M A) (w : world) : world := snd (m w).
Definition value {A} (m : M A) (w : world) : result A := fst (m w).

(** ** Well-formed views

    A view is in bounds when its base array exists, has at least one
    row, and every row reaches to the end of the window. *)
Definition view_ok (w : world) (v : ndview) : Prop :=
  base v < length (bufs w) ∧
  0 < shape0 w v ∧
  Forall (λ row : list cell, off v + width v ≤ length row) (bufs w !!! base v).

(** What [merge_params] sums: the committed size [_i + 1] of every
    child, and the cursors alone. *)
Definition committed (w : world) (others : list nat) : nat :=
  sum_list ((λ r, _i (objs w !!! r) + 1) <$> others).
Definition cursors (w : world) (others : list nat) : nat :=
  sum_list ((λ r, _i (objs w !!! r)) <$> others).

(** The rows of the buffer that [_realloc] builds: the first [k]
    columns of the old window, then zeros up to the new width. *)
Definition grown (w : world) (m : ndview) (k n : nat) : list (list Z) :=
  (λ row, take k (drop (off m) row) ++ replicate (n - k) 0%Z) <$> (bufs w !!! base m).

(** The sizing step of [merge_params] followed by the freeze of the
    parent, as a function of the store. *)
Definition sized (self : nat) (others : list nat) (w : world) : result unit * world :=
  let p := objs w !!! self in
  let nr_req := _i p + committed w others in
  if width (_mem p) <? nr_req then _realloc self nr_req w else (Ok tt, w).

Definition frozen (self : nat) (w : world) : world :=
  World (bufs w) (alter (set_allow_resize false) self (objs w)).

(** The arenas after one step of the loop of merge: the parent's
    cursor has moved to [k], the child is frozen on [blob]. *)
Definition carved (self other k : nat) (blob : ndview) (l : list Params) : list Params :=
  alter (set_mem blob) other
    (alter (set_allow_resize false) other (alter (set_i k) self l)).

(** ** The operations of the interface, as data *)

Inductive op :=
| Get (self : nat) (name : string)
| Add (self : nat) (name : string) (shape : list nat)
| Merge (self : nat) (others : list nat).

Definition exec (o : op) (w : world) : world :=
  match o with
  | Get self name => run (get self name) w
  | Add self name shape => run (add self name shape) w
  | Merge self others => run (merge_params self others) w
  end.

(** The one call that takes the branch to [_alloc_gradients] on the
    arena [a]: [get] of a gradient-prefixed name while the buffer of
    [a] has one row. *)
Definition grows_gradient_row (a : nat) (o : op) (w : world) : Prop :=
  match o with
  | Get self name =>
      self = a ∧ String.prefix "d_" name = true ∧
      shape0 w (_mem (objs w !!! a)) = 1
  | _ => False
  end.

(** The arena [a] is frozen on the buffer view [m]. *)
Definition stable (a : nat) (m : ndview) (w : world) : Prop :=
  _mem (objs w !!! a) = m ∧ allow_resize (objs w !!! a) = false.

(** Row 0 of the buffer [b] of the store. *)
Definition buf_row0 (w : world) (b : nat) : list Z := (bufs w !!! b) !!! 0.

(** The children of a merge own buffers of their own, in bounds. *)
Definition child_ok (w : world) (pm : ndview) (r : nat) : Prop :=
  let o := objs w !!! r in
  view_ok w (_mem o) ∧ _i o ≤ width (_mem o) ∧ base (_mem o) ≠ base pm.

(** ** Well-formed arenas

    The buffer view is in bounds, the guard column lies inside it and
    every directory entry ends at or before the cursor. *)
Definition arena_ok (w : world) (self : nat) : Prop :=
  let p := objs w !!! self in
  view_ok w (_mem p) ∧ _i p + 1 ≤ width (_mem p) ∧
  ∀ name o s, _offsets p !! name = Some (o, s) → o + prod s ≤ _i p.

(** ** [cat_inputs] of examples/quora_similarity.py

    The arrays that [cat_inputs] sees are 2-D: the list of their rows,
    and the number of columns, which [shape[1]] gives also when there
    is no row. *)
Record array2 := Array2 { ncols : nat; rows : list (list cell) }.

Definition array2_ok (a : array2) : Prop :=
  Forall (λ r, length r = ncols a) (rows a).

(** The rows of [k]-row arrays put side by side. *)
Definition hrows (k : nat) (inputs : list array2) : list (list cell) :=
  foldr (λ b acc, zip_with app (rows b) acc) (replicate k []) inputs.

(** [numpy.hstack(inputs)] on 2-D arrays ([ops.xp] is numpy): the rows
    of the inputs side by side.  It raises ValueError, here [None], on
    an empty list and when the inputs differ in their number of rows. *)
Definition hstack (inputs : list array2) : option array2 :=
  match inputs with
  | [] => None
  | a :: _ =>
      let k := length (rows a) in
      if forallb (λ b, length (rows b) =? k) inputs
      then Some (Array2 (sum_list (ncols <$> inputs)) (hrows k inputs))
      else None
  end.

(** [gradient[:, start : end]] for [0 <= start], [0 <= end]. *)
Definition slice_cols (g : array2) (start end_ : nat) : array2 :=
  let a := start `min` ncols g in
  let b := end_ `min` ncols g in
  Array2 (b - a) ((λ r, take (b - a) (drop a r)) <$> rows g).

(** The loop of [finish_update], from the column [start] on. *)
Fixpoint seq_grads (gradient : array2) (start : nat) (lengths : list nat)
    : list array2 :=
  match lengths with
  | [] => []
  | length :: lengths =>
      let end_ := start + length in
      slice_cols gradient start end_ :: seq_grads gradient end_ lengths
  end.

(** [finish_update(gradient, sgd=None)] of the closure that
    [begin_update] returns; [sgd] is not used. *)
Definition cat_inputs_finish_update (lengths : list nat) (gradient : array2)
    : list array2 :=
  seq_grads gradient 0 lengths.

(** [begin_update(inputs, drop=0.)]; [drop] is not used. *)
Definition cat_inputs_begin_update (inputs : list array2)
    : option (array2 * (array2 → list array2)) :=
  let lengths := ncols <$> inputs in
  X ← hstack inputs;
  Some (X, cat_inputs_finish_update lengths).

(** ** Sample stores *)

(** A client writing through the view that [get] returns:
    [self.get(name)[:] = xs]. *)
Definition fill (self : nat) (name : string) (xs : list cell) (w : world) : world :=
  match value (get self name) w with
  | Ok (Some b) => blob_store b xs w
  | _ => w
  end.

(** [p = Params(ops, size); p.add(name, (len(xs),))[:] = xs]. *)
Definition arena (size : Z) (name : string) (xs : list cell) (w : world) : world :=
  let a := length (objs w) in
  fill a name xs (run (add a name [length xs]) (run (__init__ size) w)).

(** Arena 0 of capacity 16 holding W, arenas 1 and 2 of capacity 8
    holding V and U. *)
Definition three_arenas : world :=
  arena 8 "U" [7; 8]%Z (arena 8 "V" [1; 2; 3]%Z (arena 16 "W" [5; 6]%Z empty_world)).

(** The same children under an empty parent of capacity 4, and that
    parent after it has merged the first child. *)
Definition small_parent : world :=
  arena 8 "U" [7; 8]%Z (arena 8 "V" [1; 2; 3]%Z (run (__init__ 4) empty_world)).
Definition merged_once : world := run (merge_params 0 [1]) small_parent.

(** The three arenas after arena 0 has been asked for a gradient. *)
Definition with_gradients : world := run (get 0 "d_W") three_arenas.

(** Two arrays of two rows. *)
Definition two_inputs : list array2 :=
  [Array2 2 [[1; 2]; [3; 4]]%Z; Array2 1 [[5]; [6]]%Z].

(** ** Basic facts about the store *)

Lemma obj_alter_eq (f : Params → Params) (r : nat) (l : list Params) :
  r < length l → alter f r l !!! r = f (l !!! r).
Proof. intros. by rewrite list_lookup_total_alter_eq. Qed.

Lemma obj_alter_ne (f : Params → Params) (r r' : nat) (l : list Params) :
  r ≠ r' → alter f r l !!! r' = l !!! r'.
Proof. intros. by rewrite list_lookup_total_alter_ne. Qed.

Lemma get_at_run (self : nat) (name : string) (col : nat) (w : world) :
  get_at self name col w =
    (match _offsets (objs w !!! self) !! name with
     | None => Ok None
     | Some (o, shape) =>
         let m := _mem (objs w !!! self) in
         if decide (shape0 w m ≤ col) then Raise IndexError_row
         else if decide (width (cols m o (o + prod shape)) = prod shape)
              then Ok (Some (Blob (base m) col (off m + o `min` width m)
                                  (width (cols m o (o + prod shape))) shape))
              else Raise ValueError_reshape
     end, w).
Proof.
  unfold get_at, mbind, M_bind, obj, row_blob, mret, M_ret; cbn.
  destruct (_offsets (objs w !!! self) !! name) as [[o s]|]; [|done].
  repeat case_decide; done.
Qed.

(** ** Construction *)

(** C8: a negative initial capacity is refused with an InvalidArgument
    error and nothing is created; a capacity [size >= 0] creates one new
    arena over one new buffer of one row and [size] zero columns, with
    an empty directory, cursor 0 and the resizable flag set. *)
Theorem construct_spec (size : Z) (w : world) :
  ((size < 0)%Z →
     ∃ e, __init__ size w = (Raise e, w) ∧ InvalidArgument e) ∧
  ((0 ≤ size)%Z →
     ∃ w' p, __init__ size w = (Ok (length (objs w)), w') ∧
       objs w' = objs w ++ [p] ∧
       bufs w' = bufs w ++ [[replicate (Z.to_nat size) 0%Z]] ∧
       _mem p = NdView (length (bufs w)) 0 (Z.to_nat size) ∧
       shape0 w' (_mem p) = 1 ∧
       _offsets p = ∅ ∧ _i p = 0 ∧ allow_resize p = true).
Proof.
  split; intros Hs; unfold __init__.
  - exists ValueError_size. apply Z.ltb_lt in Hs as ->.
    split; [done | by left].
  - apply Z.ltb_ge in Hs as ->.
    eexists _, _. split; [reflexivity |]. cbn.
    repeat split; try done.
    unfold shape0; cbn. by rewrite lookup_total_app_r, Nat.sub_diag.
Qed.

Lemma construct_spec_witness :
  (∃ e, __init__ (-1) empty_world = (Raise e, empty_world) ∧ InvalidArgument e) ∧
  (∃ w' p, __init__ 128 empty_world = (Ok 0, w') ∧
       objs w' = [p] ∧ bufs w' = [[replicate 128 0%Z]] ∧
       _mem p = NdView 0 0 128 ∧ shape0 w' (_mem p) = 1 ∧
       _offsets p = ∅ ∧ _i p = 0 ∧ allow_resize p = true).
Proof.
  split.
  - apply (construct_spec (-1) empty_world). lia.
  - apply (construct_spec 128 empty_world). lia.
Defined.

(** ** get *)

(** C9: [get] of a name without the gradient prefix changes nothing:
    the whole store (every buffer, every arena, hence the directory,
    cursor, capacity, rows, buffer identity and content, and flag of
    this arena) is the same after the call, whether the call returns a
    view, the absence signal or raises. *)
Theorem get_value_frame (self : nat) (name : string) (w : world) :
  String.prefix "d_" name = false →
  run (get self name) w = w.
Proof.
  intros Hp. unfold run, get, gradient_of. rewrite Hp.
  by rewrite get_at_run.
Qed.

(** ** merge: the precondition on the children *)

(** C6: when some child is not resizable, [merge_params] raises the
    InvalidArgument error of its precondition and the store is left
    exactly as it was: parent and children are untouched. *)
Theorem merge_frozen_child (self : nat) (others : list nat) (w : world) :
  (∃ r, r ∈ others ∧ allow_resize (objs w !!! r) = false) →
  merge_params self others w = (Raise ValueError_merge, w) ∧
  InvalidArgument ValueError_merge.
Proof.
  intros (r & Hin & Hr). split; [|by right].
  destruct others as [|o rest]; [by apply elem_of_nil in Hin|].
  unfold merge_params, mbind, M_bind.
  assert (forallb allow_resize ((λ r, objs w !!! r) <$> o :: rest) = false) as ->; [|done].
  apply not_true_is_false. intros Hall.
  rewrite forallb_forall in Hall.
  specialize (Hall (objs w !!! r)). rewrite Hall in Hr; [done|].
  apply list_elem_of_In, list_elem_of_fmap. eauto.
Qed.

(** ** Lists: windows and splices *)

Section windows.
Context {A : Type}.
Implicit Types (l xs row : list A).

Lemma window_take (a n k : nat) l :
  a + n ≤ k → take n (drop a (take k l)) = take n (drop a l).
Proof.
  intros. rewrite !take_drop_commute, take_take.
  by rewrite Nat.min_l by lia.
Qed.

Lemma window_window (o a n k : nat) l :
  a + n ≤ k → take n (drop a (take k (drop o l))) = take n (drop (o + a) l).
Proof. intros. by rewrite window_take, drop_drop. Qed.

Lemma length_window (o n : nat) l :
  o + n ≤ length l → length (take n (drop o l)) = n.
Proof. intros. rewrite length_take, length_drop. lia. Qed.

Lemma length_splice (o : nat) xs row :
  o + length xs ≤ length row → length (splice o xs row) = length row.
Proof.
  intros. unfold splice.
  rewrite !length_app, length_take, length_drop. lia.
Qed.

(** Reading inside the spliced run sees the new cells. *)
Lemma splice_inside (o a n : nat) xs row :
  o ≤ length row → a + n ≤ length xs →
  take n (drop (o + a) (splice o xs row)) = take n (drop a xs).
Proof.
  intros. unfold splice.
  rewrite drop_app_ge by (rewrite length_take; lia).
  rewrite length_take, Nat.min_l by lia.
  replace (o + a - o) with a by lia.
  rewrite drop_app_le by lia.
  rewrite take_app_le; [done | rewrite length_drop; lia].
Qed.

Lemma splice_read (o n : nat) xs row :
  o ≤ length row → n = length xs → take n (drop o (splice o xs row)) = xs.
Proof.
  intros ? ->. rewrite <- (Nat.add_0_r o) at 1.
  rewrite splice_inside by lia. cbn. apply firstn_all.
Qed.

(** Reading before the spliced run sees the old cells. *)
Lemma splice_before (o a n : nat) xs row :
  o ≤ length row → a + n ≤ o →
  take n (drop a (splice o xs row)) = take n (drop a row).
Proof.
  intros. unfold splice.
  rewrite drop_app_le by (rewrite length_take; lia).
  rewrite take_app_le by (rewrite length_drop, length_take; lia).
  apply window_take. lia.
Qed.

(** Reading after the spliced run sees the old cells. *)
Lemma splice_after (o a : nat) xs row :
  o + length xs ≤ length row → o + length xs ≤ a →
  drop a (splice o xs row) = drop a row.
Proof.
  intros. unfold splice.
  rewrite drop_app_ge by (rewrite length_take; lia).
  rewrite length_take, Nat.min_l by lia.
  rewrite drop_app_ge by lia.
  rewrite drop_drop. f_equal. lia.
Qed.

Lemma stretch_same (n : nat) xs : length xs = n → stretch n xs = Some xs.
Proof. intros. unfold stretch. by rewrite decide_True. Qed.
End windows.

(** ** Running the helpers *)

Lemma bufs_app_old (w : world) (b : nat) (ms : list matrix) :
  b < length (bufs w) → (bufs w ++ ms) !!! b = bufs w !!! b.
Proof. intros. by rewrite lookup_total_app_l. Qed.

Lemma bufs_app_new (l : list matrix) (m : matrix) :
  (l ++ [m]) !!! length l = m.
Proof. by rewrite lookup_total_app_r, Nat.sub_diag. Qed.

Lemma alter_app_new (f : matrix → matrix) (l : list matrix) (m : matrix) :
  alter f (length l) (l ++ [m]) = l ++ [f m].
Proof. by rewrite alter_app_r_alt, Nat.sub_diag. Qed.

Lemma splice_zeros (n : nat) (xs : list cell) :
  length xs = n → splice 0 xs (replicate n 0%Z) = xs.
Proof.
  intros <-. unfold splice; cbn.
  rewrite drop_ge by (by rewrite length_replicate). apply app_nil_r.
Qed.

Lemma view_ok_row0 (w : world) (v : ndview) :
  view_ok w v →
  ∃ rest, bufs w !!! base v = ((bufs w !!! base v) !!! 0) :: rest ∧
          off v + width v ≤ length ((bufs w !!! base v) !!! 0).
Proof.
  intros (_ & Hrows & Hall). unfold shape0 in Hrows.
  destruct (bufs w !!! base v) as [|r rest]; cbn in *; [lia|].
  exists rest. split; [done|]. by inversion Hall.
Qed.

Lemma alloc_gradients_run (self : nat) (w : world) :
  let m := _mem (objs w !!! self) in
  view_ok w m →
  _alloc_gradients self w =
    (Ok tt,
     World (bufs w ++ [[take (width m) (drop (off m) ((bufs w !!! base m) !!! 0));
                        replicate (width m) 0%Z]])
           (alter (set_mem (NdView (length (bufs w)) 0 (width m))) self (objs w))).
Proof.
  intros m Hok. destruct (view_ok_row0 _ _ Hok) as (rest & Hrows & Hlen).
  pose proof Hok as (Hbase & _ & _).
  unfold _alloc_gradients, mbind, M_bind, obj, allocate, row0, view_data; cbn.
  fold m. rewrite bufs_app_old by done. rewrite Hrows; cbn.
  unfold assign_row0, shape0; cbn. rewrite bufs_app_new; cbn.
  rewrite stretch_same by (apply length_window; lia).
  unfold update; cbn. rewrite alter_app_new; cbn.
  rewrite splice_zeros by (apply length_window; lia).
  by case_decide.
Qed.

(** ** Lazy growth of the gradient row *)

Lemma get_gradient_run (self : nat) (name base_name : string) (w : world) :
  gradient_of name = Some base_name →
  get self name w =
    if decide (shape0 w (_mem (objs w !!! self)) = 1)
    then match _alloc_gradients self w with
         | (Ok _, w') => get_at self base_name 1 w'
         | (Raise e, w') => (Raise e, w')
         end
    else get_at self base_name 1 w.
Proof.
  intros Hg. unfold get. rewrite Hg.
  unfold mbind, M_bind, obj, when_; cbn.
  case_decide as Hs.
  - rewrite bool_decide_eq_true_2 by done.
    by destruct (_alloc_gradients self w) as [[[]|e] w'].
  - by rewrite bool_decide_eq_false_2 by done.
Qed.

Lemma gradient_of_prefix (name : string) :
  String.prefix "d_" name = true → ∃ n, gradient_of name = Some n.
Proof. intros H. unfold gradient_of. rewrite H. eauto. Qed.

(** C7: on an arena whose buffer has one row, [get] of a
    gradient-prefixed name replaces the buffer by a fresh one of two
    rows and the same width: row 0 is the whole old row 0 of the arena
    (tail columns included), row 1 is zero.  Flag, cursor and directory
    of the arena and all other arenas are untouched, whatever the flag
    is; the call itself can only fail in its final reshape.  Every
    value blob that [get] returned before is returned with the same
    shape and content afterwards, from row 0 of the new buffer. *)
Theorem gradient_growth (self : nat) (name : string) (w : world) :
  let p := objs w !!! self in
  let m := _mem p in
  let m' := NdView (length (bufs w)) 0 (width m) in
  let w' := run (get self name) w in
  self < length (objs w) →
  view_ok w m →
  shape0 w m = 1 →
  String.prefix "d_" name = true →
  bufs w' = bufs w ++ [[take (width m) (drop (off m) ((bufs w !!! base m) !!! 0));
                        replicate (width m) 0%Z]] ∧
  objs w' = alter (set_mem m') self (objs w) ∧
  shape0 w' m' = 2 ∧
  (∀ e, value (get self name) w = Raise e → e = ValueError_reshape) ∧
  (∀ name' b,
     String.prefix "d_" name' = false →
     value (get self name') w = Ok (Some b) →
     ∃ b', value (get self name') w' = Ok (Some b') ∧
           blob_base b' = length (bufs w) ∧ blob_row b' = 0 ∧
           blob_shape b' = blob_shape b ∧ blob_len b' = blob_len b ∧
           blob_data w' b' = blob_data w b).
Proof.
  intros p m m' w' Hself Hok Hrows Hpre.
  destruct (gradient_of_prefix _ Hpre) as [bn Hbn].
  destruct (view_ok_row0 _ _ Hok) as (rest & Hbuf & Hlen).
  pose proof Hok as (Hbase & _ & _).
  assert (get self name w =
          get_at self bn 1
            (World (bufs w ++ [[take (width m) (drop (off m) ((bufs w !!! base m) !!! 0));
                                replicate (width m) 0%Z]])
                   (alter (set_mem m') self (objs w)))) as Hrun.
  { rewrite (get_gradient_run _ _ _ _ Hbn), decide_True by done.
    by rewrite alloc_gradients_run. }
  assert (Hw' : w' = World (bufs w ++ [[take (width m) (drop (off m) ((bufs w !!! base m) !!! 0));
                                replicate (width m) 0%Z]])
                   (alter (set_mem m') self (objs w))).
  { unfold w', run. by rewrite Hrun, get_at_run. }
  assert (Hp' : objs w' !!! self = set_mem m' p).
  { rewrite Hw'; cbn. by apply obj_alter_eq. }
  assert (Hsh : shape0 w' m' = 2).
  { rewrite Hw'. unfold shape0; cbn. by rewrite bufs_app_new. }
  split; [by rewrite Hw'|]. split; [by rewrite Hw'|]. split; [done|]. split.
  - intros e. unfold value. rewrite Hrun, <- Hw', get_at_run, Hp'; cbn.
    destruct (_offsets p !! bn) as [[o s]|]; [|done].
    rewrite Hsh. rewrite decide_False by lia.
    case_decide; [done|]. by intros [= <-].
  - intros name' b Hn'. unfold value, get, gradient_of. rewrite Hn'.
    rewrite !get_at_run, Hp'; unfold cols; cbn. fold p m.
    destruct (_offsets p !! name') as [[o s]|]; [|done].
    rewrite Hsh, Hrows, !decide_False by lia.
    case_decide as Hw; [|done]. intros [= <-].
    eexists. split; [done|]. cbn. repeat split.
    unfold blob_data; cbn. rewrite Hw'; cbn. rewrite bufs_app_new; cbn.
    apply window_window. lia.
Qed.

(** ** Reallocation and carving *)

Lemma cols_inside (v : ndview) (a b : nat) :
  a ≤ b → b ≤ width v → cols v a b = NdView (base v) (off v + a) (b - a).
Proof. intros. unfold cols. f_equal; lia. Qed.

Lemma mapM_stretch_same (k : nat) (rs : list (list Z)) :
  Forall (λ r, length r = k) rs → mapM (stretch k) rs = Some rs.
Proof.
  intros H. apply mapM_Some_2. induction H; constructor; [|done].
  by apply stretch_same.
Qed.

Lemma broadcast_same (rows k : nat) (rs : list (list Z)) :
  length rs = rows → Forall (λ r, length r = k) rs →
  broadcast rows k rs = Some rs.
Proof.
  intros Hl Hk. unfold broadcast. rewrite stretch_same by done; cbn.
  by apply mapM_stretch_same.
Qed.

Lemma zip_with_replicate_r {A B C} (f : A → B → C) (l : list A) (y : B) :
  zip_with f l (replicate (length l) y) = (λ x, f x y) <$> l.
Proof. induction l; cbn; by f_equal. Qed.

Lemma splice_zeros_pad (n : nat) (xs : list Z) :
  splice 0 xs (replicate n 0%Z) = xs ++ replicate (n - length xs) 0%Z.
Proof. unfold splice; cbn. by rewrite drop_replicate. Qed.

Lemma realloc_frozen (self n : nat) (w : world) :
  allow_resize (objs w !!! self) = false →
  _realloc self n w = (Raise ValueError_realloc, w).
Proof. intros H. unfold _realloc, mbind, M_bind, obj; cbn. by rewrite H. Qed.

Lemma realloc_run (self n : nat) (w : world) :
  let p := objs w !!! self in
  let m := _mem p in
  allow_resize p = true →
  view_ok w m →
  _i p + 1 ≤ width m →
  _i p + 1 ≤ n →
  _realloc self n w =
    (Ok tt, World (bufs w ++ [grown w m (_i p + 1) n])
                  (alter (set_mem (NdView (length (bufs w)) 0 n)) self (objs w))).
Proof.
  intros p m Hres (Hbase & Hrows & Hall) Hi Hn.
  unfold _realloc, mbind, M_bind, obj; cbn. fold p m. rewrite Hres; cbn.
  unfold assign, shape0, view_data; cbn.
  rewrite !cols_inside by (cbn; lia); cbn.
  rewrite bufs_app_new, bufs_app_old by done.
  rewrite Nat.add_0_r, Nat.sub_0_r, length_replicate.
  rewrite broadcast_same; cycle 1.
  { by rewrite length_fmap. }
  { apply Forall_fmap. eapply Forall_impl; [exact Hall|]. cbn.
    intros row Hrow. apply length_window. lia. }
  unfold store, update; cbn. rewrite alter_app_new. do 3 f_equal.
  rewrite <- (length_fmap (λ row, take (_i p + 1) (drop (off m) row))).
  rewrite zip_with_replicate_r. unfold grown. rewrite <- list_fmap_compose.
  f_equal. apply Forall_fmap_ext_1. eapply Forall_impl; [exact Hall|]. cbn.
  intros row Hrow. rewrite splice_zeros_pad.
  by rewrite length_window by lia.
Qed.

Lemma get_blob_fit (self req : nat) (w : world) :
  let p := objs w !!! self in
  let m := _mem p in
  _i p + req + 1 ≤ width m →
  _get_blob self req w =
    (Ok (NdView (base m) (off m + _i p) req),
     World (bufs w) (alter (set_i (_i p + req)) self (objs w))).
Proof.
  intros p m Hfit. subst p m.
  unfold _get_blob, mbind, M_bind, obj, when_; cbn.
  destruct (_ <? _)%Z eqn:Hlt; [apply Z.ltb_lt in Hlt; exfalso; lia|]. cbn.
  rewrite cols_inside by lia. unfold mret, M_ret.
  by replace (_i (objs w !!! self) + req - _i (objs w !!! self)) with req by lia.
Qed.

Lemma get_blob_grow (self req : nat) (w : world) :
  let p := objs w !!! self in
  let m := _mem p in
  width m < _i p + req + 1 →
  _get_blob self req w =
    match _realloc self (width m `max` req * 2) w with
    | (Ok _, w1) =>
        let p1 := objs w1 !!! self in
        (Ok (cols (_mem p1) (_i p1) (_i p1 + req)),
         World (bufs w1) (alter (set_i (_i p1 + req)) self (objs w1)))
    | (Raise e, w1) => (Raise e, w1)
    end.
Proof.
  intros p m Hfit. subst p m.
  unfold _get_blob, mbind, M_bind, obj, when_; cbn.
  destruct (_ <? _)%Z eqn:Hlt; [|apply Z.ltb_ge in Hlt; exfalso; lia].
  by destruct (_realloc self _ w) as [[[]|e] w1].
Qed.

(** ** Adopting a carved region *)

Lemma replace_mem_frozen (other : nat) (mem : ndview) (w : world) :
  allow_resize (objs w !!! other) = false →
  replace_mem other mem w = (Raise ValueError_replace_mem, w).
Proof. intros H. unfold replace_mem, mbind, M_bind, obj; cbn. by rewrite H. Qed.

Lemma replace_mem_run (other : nat) (mem : ndview) (w : world) :
  let o := objs w !!! other in
  allow_resize o = true →
  replace_mem other mem w =
    match broadcast (shape0 w mem) (width mem)
                    (view_data w (cols (_mem o) 0 (_i o))) with
    | Some m =>
        (Ok tt,
         World (alter (zip_with (splice (off mem)) m) (base mem) (bufs w))
               (alter (set_mem mem) other
                  (alter (set_allow_resize false) other (objs w))))
    | None =>
        (Raise ValueError_broadcast,
         World (bufs w) (alter (set_allow_resize false) other (objs w)))
    end.
Proof.
  intros o Hres. subst o.
  unfold replace_mem, mbind, M_bind, obj; cbn. rewrite Hres; cbn.
  unfold assign, shape0, view_data; cbn.
  by destruct (broadcast _ _ _).
Qed.

Lemma merge_loop_cons (self other : nat) (rest : list nat) (w : world) :
  merge_loop self (other :: rest) w =
    match merge_step self other w with
    | (Ok _, w') => merge_loop self rest w'
    | (Raise e, w') => (Raise e, w')
    end.
Proof. done. Qed.

Lemma merge_step_run (self other : nat) (w : world) :
  merge_step self other w =
    match _get_blob self (_i (objs w !!! other)) w with
    | (Ok blob, w') => replace_mem other blob w'
    | (Raise e, w') => (Raise e, w')
    end.
Proof. done. Qed.

(** On a frozen parent a step that returns has carved without growing,
    and the child was a resizable arena other than the parent. *)
Lemma merge_step_ok (self other : nat) (w w' : world) :
  let p := objs w !!! self in
  let o := objs w !!! other in
  let blob := NdView (base (_mem p)) (off (_mem p) + _i p) (_i o) in
  allow_resize p = false →
  merge_step self other w = (Ok tt, w') →
  other ≠ self ∧ allow_resize o = true ∧
  _i p + _i o + 1 ≤ width (_mem p) ∧
  ∃ m, broadcast (shape0 w blob) (_i o) (view_data w (cols (_mem o) 0 (_i o))) = Some m ∧
       w' = World (alter (zip_with (splice (off blob)) m) (base blob) (bufs w))
                  (alter (set_mem blob) other
                     (alter (set_allow_resize false) other
                        (alter (set_i (_i p + _i o)) self (objs w)))).
Proof.
  intros p o blob Hfrozen. rewrite merge_step_run. fold o.
  destruct (decide (_i p + _i o + 1 ≤ width (_mem p))) as [Hfit|Hfit].
  - rewrite get_blob_fit by done. fold p blob.
    destruct (decide (other = self)) as [->|Hne].
    { rewrite replace_mem_frozen; [done|]. cbn.
      rewrite list_lookup_total_alter. by case_decide. }
    destruct (allow_resize o) eqn:Hres.
    + rewrite replace_mem_run; cbn; rewrite obj_alter_ne by done; fold o; [|done].
      unfold shape0, view_data; cbn.
      destruct (broadcast _ _ _) as [m|] eqn:Hb; [|done].
      intros [= <-]. repeat split; try done. by exists m.
    + rewrite replace_mem_frozen; [done|]. cbn. by rewrite obj_alter_ne.
  - rewrite get_blob_grow by (fold p; lia).
    by rewrite realloc_frozen.
Qed.

(** ** The loop of merge on a frozen parent *)

Lemma obj_out_of_range (l : list Params) (r : nat) :
  length l ≤ r → l !!! r = inhabitant.
Proof. intros. by rewrite list_lookup_total_alt, lookup_ge_None_2. Qed.

Lemma resizable_in_range (w : world) (r : nat) :
  allow_resize (objs w !!! r) = true → r < length (objs w).
Proof.
  intros H. destruct (decide (r < length (objs w))); [done|].
  rewrite obj_out_of_range in H by lia. done.
Qed.

Lemma wide_in_range (w : world) (r : nat) :
  0 < width (_mem (objs w !!! r)) → r < length (objs w).
Proof.
  intros H. destruct (decide (r < length (objs w))); [done|].
  rewrite obj_out_of_range in H by lia. cbn in H. lia.
Qed.

Lemma cursors_ext (w1 w : world) (l : list nat) :
  (∀ r, r ∈ l → objs w1 !!! r = objs w !!! r) → cursors w1 l = cursors w l.
Proof.
  intros H. unfold cursors. f_equal. apply Forall_fmap_ext_1, Forall_forall.
  intros r Hr. by rewrite H.
Qed.

Lemma committed_ext (w1 w : world) (l : list nat) :
  (∀ r, r ∈ l → objs w1 !!! r = objs w !!! r) → committed w1 l = committed w l.
Proof.
  intros H. unfold committed. f_equal. apply Forall_fmap_ext_1, Forall_forall.
  intros r Hr. by rewrite H.
Qed.

Lemma committed_ext_i (w1 w : world) (l : list nat) :
  (∀ r, r ∈ l → _i (objs w1 !!! r) = _i (objs w !!! r)) →
  committed w1 l = committed w l.
Proof.
  intros H. unfold committed. f_equal. apply Forall_fmap_ext_1, Forall_forall.
  intros r Hr. cbn. by rewrite H.
Qed.

Lemma committed_cursors (w : world) (l : list nat) :
  committed w l = cursors w l + length l.
Proof. unfold committed, cursors. induction l; cbn; lia. Qed.

Lemma set_i_same (p : Params) (k : nat) : k = _i p → set_i k p = p.
Proof. intros ->. by destruct p. Qed.

Section step_objs.
Variables (self other k : nat) (blob : ndview) (l : list Params).
Hypothesis Hne : other ≠ self.

Local Abbreviation l' := (carved self other k blob l).

Lemma step_objs_length : length l' = length l.
Proof using Type. unfold carved. by rewrite !length_alter. Qed.

Lemma step_objs_self : self < length l → l' !!! self = set_i k (l !!! self).
Proof using Hne.
  intros. unfold carved. rewrite 2!obj_alter_ne by done. by apply obj_alter_eq.
Qed.

Lemma step_objs_other :
  other < length l →
  l' !!! other = MkParams blob (_offsets (l !!! other)) (_i (l !!! other)) false.
Proof using Hne.
  intros. unfold carved.
  rewrite !obj_alter_eq by (by rewrite ?length_alter).
  by rewrite obj_alter_ne.
Qed.

Lemma step_objs_frame (r : nat) : r ≠ self → r ≠ other → l' !!! r = l !!! r.
Proof using Type. intros. unfold carved. by rewrite 3!obj_alter_ne by done. Qed.
End step_objs.

Lemma cursors_cons_take (w : world) (other : nat) (rest : list nat) (i : nat) :
  cursors w (take (S i) (other :: rest)) =
  _i (objs w !!! other) + cursors w (take i rest).
Proof. done. Qed.

Lemma merge_loop_ok (self : nat) (others : list nat) :
  ∀ w w',
  let p := objs w !!! self in
  allow_resize p = false →
  merge_loop self others w = (Ok tt, w') →
  NoDup others ∧ (self ∉ others) ∧
  Forall (λ r, allow_resize (objs w !!! r) = true) others ∧
  (others ≠ [] → _i p + cursors w others + 1 ≤ width (_mem p)) ∧
  length (objs w') = length (objs w) ∧
  length (bufs w') = length (bufs w) ∧
  objs w' !!! self = set_i (_i p + cursors w others) p ∧
  (∀ i r, others !! i = Some r →
     objs w' !!! r =
       MkParams (NdView (base (_mem p))
                        (off (_mem p) + _i p + cursors w (take i others))
                        (_i (objs w !!! r)))
                (_offsets (objs w !!! r)) (_i (objs w !!! r)) false) ∧
  (∀ r, r ≠ self → r ∉ others → objs w' !!! r = objs w !!! r).
Proof.
  induction others as [|other rest IH]; intros w w' p Hfrozen Hrun.
  - cbn in Hrun. injection Hrun as <-.
    repeat split; try done.
    + constructor.
    + by apply not_elem_of_nil.
    + symmetry. apply set_i_same. unfold cursors, p; cbn. lia.
  - rewrite merge_loop_cons in Hrun.
    destruct (merge_step self other w) as [[[]|e] w1] eqn:Hstep; [|done].
    destruct (merge_step_ok _ _ _ _ Hfrozen Hstep)
      as (Hne & Hres & Hfit & m & _ & Hw1).
    fold p in Hfit, Hw1.
    set (o := objs w !!! other) in *.
    set (blob := NdView (base (_mem p)) (off (_mem p) + _i p) (_i o)) in *.
    assert (Hself : self < length (objs w)) by (apply wide_in_range; fold p; lia).
    assert (Hother : other < length (objs w)) by by apply resizable_in_range.
    assert (Hp1 : objs w1 !!! self = set_i (_i p + _i o) p).
    { rewrite Hw1; cbn. by apply step_objs_self. }
    assert (Ho1 : objs w1 !!! other = MkParams blob (_offsets o) (_i o) false).
    { rewrite Hw1; cbn. by apply step_objs_other. }
    assert (Hfr1 : ∀ r, r ≠ self → r ≠ other → objs w1 !!! r = objs w !!! r).
    { intros r ??. rewrite Hw1; cbn. by apply step_objs_frame. }
    destruct (IH w1 w') as (Hnd & Hnin & Hall & Hwide & Hlo & Hlb & Hs' & Hch & Hfr);
      [by rewrite Hp1|done|].
    rewrite Hp1 in Hwide, Hs', Hch; cbn in Hwide, Hs', Hch.
    assert (Hrest : ∀ r, r ∈ rest → r ≠ self ∧ r ≠ other).
    { intros r Hr. split; [by intros ->|]. intros ->.
      rewrite Forall_forall in Hall. specialize (Hall _ Hr).
      by rewrite Ho1 in Hall. }
    assert (Hsame : ∀ r, r ∈ rest → objs w1 !!! r = objs w !!! r).
    { intros r Hr. destruct (Hrest r Hr). by apply Hfr1. }
    assert (Hcur : ∀ l, l ⊆ rest → cursors w1 l = cursors w l).
    { intros l Hl. apply cursors_ext. intros r Hr. apply Hsame, Hl, Hr. }
    assert (Hcons : cursors w (other :: rest) = _i o + cursors w rest) by done.
    rewrite (Hcur rest) in Hwide, Hs' by done.
    assert (Hnotin : other ∉ rest).
    { intros Hin. by destruct (Hrest _ Hin). }
    split. { by constructor. }
    split. { rewrite not_elem_of_cons. split; [done|exact Hnin]. }
    split. { constructor; [done|]. rewrite Forall_forall in Hall |- *.
             intros r Hr. rewrite <- Hsame by done. by apply Hall. }
    split. { intros _. rewrite Hcons. destruct rest as [|r rest'].
             - unfold cursors; cbn. lia.
             - specialize (Hwide ltac:(done)). lia. }
    split. { rewrite Hlo, Hw1; cbn. by rewrite !length_alter. }
    split. { rewrite Hlb, Hw1; cbn. by rewrite length_alter. }
    split. { rewrite Hs', Hcons. unfold set_i; cbn. f_equal. lia. }
    split.
    + intros [|i] r Hi; cbn in Hi.
      * injection Hi as <-. rewrite Hfr by done. rewrite Ho1.
        unfold blob, cursors; cbn. do 2 f_equal. lia.
      * assert (r ∈ rest) by by eapply list_elem_of_lookup_2.
        rewrite (Hch i r Hi), Hsame by done.
        rewrite Hcur by apply subseteq_take.
        rewrite (cursors_cons_take w other rest i). fold o. do 2 f_equal. lia.
    + intros r Hrs Hro. apply not_elem_of_cons in Hro as [??].
      by rewrite Hfr, Hfr1.
Qed.

(** ** merge_params as a whole *)

Lemma forallb_resizable (w : world) (others : list nat) :
  forallb allow_resize ((λ r, objs w !!! r) <$> others) = true ↔
  Forall (λ r, allow_resize (objs w !!! r) = true) others.
Proof.
  induction others as [|r rest IH]; cbn.
  - split; [constructor|done].
  - rewrite andb_true_iff, IH, Forall_cons. done.
Qed.

Lemma sum_sizes (w : world) (others : list nat) :
  sum_list ((λ o, _i o + 1) <$> ((λ r, objs w !!! r) <$> others)) =
  committed w others.
Proof. unfold committed. by rewrite <- list_fmap_compose. Qed.

Lemma merge_params_run (self : nat) (others : list nat) (w : world) :
  others ≠ [] →
  Forall (λ r, allow_resize (objs w !!! r) = true) others →
  merge_params self others w =
    match sized self others w with
    | (Ok _, w0) => merge_loop self others (frozen self w0)
    | (Raise e, w0) => (Raise e, w0)
    end.
Proof.
  intros Hne Hall. destruct others as [|o rest]; [done|].
  apply forallb_resizable in Hall.
  unfold merge_params, mbind, M_bind, obj, when_, update, sized, frozen.
  cbv beta iota zeta. rewrite Hall, sum_sizes. cbv beta iota delta [negb].
  destruct (_ <? _).
  - by destruct (_realloc _ _ _) as [[[]|e] w0].
  - done.
Qed.

Lemma realloc_cases (self n : nat) (w : world) :
  allow_resize (objs w !!! self) = true →
  ∃ bs, length bs = S (length (bufs w)) ∧
    (_realloc self n w = (Raise ValueError_broadcast, World bs (objs w)) ∨
     _realloc self n w =
       (Ok tt, World bs (alter (set_mem (NdView (length (bufs w)) 0 n)) self (objs w)))).
Proof.
  intros Hres. unfold _realloc, mbind, M_bind, obj; cbn. rewrite Hres; cbn.
  unfold assign; cbn. destruct (broadcast _ _ _) as [m|].
  - eexists. split; [|right; reflexivity].
    unfold store; cbn. rewrite length_alter, length_app; cbn. lia.
  - eexists. split; [|left; reflexivity].
    rewrite length_app; cbn. lia.
Qed.

Lemma alter_set_mem_same (l : list Params) (r : nat) :
  alter (set_mem (_mem (l !!! r))) r l = l.
Proof.
  apply list_eq. intros j. rewrite list_lookup_alter. case_decide as H; [|done].
  subst j. rewrite list_lookup_total_alt.
  destruct (l !! r) as [[]|]; done.
Qed.

Lemma frozen_self (self : nat) (w : world) :
  allow_resize (objs (frozen self w) !!! self) = false.
Proof. cbn. rewrite list_lookup_total_alter. case_decide as H; [done|].
  destruct (decide (self < length (objs w))); [naive_solver|].
  by rewrite obj_out_of_range by lia.
Qed.

(** A merge that returns has passed the check of the children, has
    sized the parent (leaving its buffer, or replacing it by a fresh
    one of exactly the required width), and has run the loop on the
    frozen parent. *)
Lemma merge_params_sized (self : nat) (others : list nat) (w w' : world) :
  let p := objs w !!! self in
  let n := _i p + committed w others in
  others ≠ [] →
  merge_params self others w = (Ok tt, w') →
  ∃ bs m0,
    Forall (λ r, allow_resize (objs w !!! r) = true) others ∧
    merge_loop self others
      (frozen self (World bs (alter (set_mem m0) self (objs w)))) = (Ok tt, w') ∧
    (m0 = _mem p ∧ bs = bufs w ∨
     m0 = NdView (length (bufs w)) 0 n ∧
     allow_resize p = true ∧ width (_mem p) < n ∧
     length bs = S (length (bufs w)) ∧
     _realloc self n w = (Ok tt, World bs (alter (set_mem m0) self (objs w)))) ∧
    n ≤ width m0.
Proof.
  intros p n Hne Hrun.
  assert (Hall : Forall (λ r, allow_resize (objs w !!! r) = true) others).
  { apply forallb_resizable. destruct others as [|o rest]; [done|].
    unfold merge_params, mbind, M_bind in Hrun.
    by destruct (forallb _ _). }
  rewrite merge_params_run in Hrun by done.
  unfold sized in Hrun. fold p n in Hrun.
  destruct (Nat.ltb_spec (width (_mem p)) n) as [Hlt|Hge].
  - destruct (allow_resize p) eqn:Hres.
    + destruct (realloc_cases self n w Hres)
        as (bs & Hbs & [Hr|Hr]); rewrite Hr in Hrun; [done|].
      exists bs, (NdView (length (bufs w)) 0 n).
      split; [done|]. split; [done|]. split; [|done].
      right. by repeat split.
    + by rewrite realloc_frozen in Hrun.
  - exists (bufs w), (_mem p). split; [done|]. split; [|split; [by left|done]].
    unfold p. rewrite alter_set_mem_same. by destruct w.
Qed.

(** What a merge that returns has done to the arenas. *)
Lemma merge_params_ok (self : nat) (others : list nat) (w w' : world) :
  let p := objs w !!! self in
  others ≠ [] →
  merge_params self others w = (Ok tt, w') →
  ∃ m0,
    (m0 = _mem p ∧ length (bufs w') = length (bufs w) ∨
     m0 = NdView (length (bufs w)) 0 (_i p + committed w others) ∧
     allow_resize p = true ∧ width (_mem p) < _i p + committed w others ∧
     length (bufs w') = S (length (bufs w))) ∧
    _i p + committed w others ≤ width m0 ∧
    NoDup others ∧ (self ∉ others) ∧
    Forall (λ r, allow_resize (objs w !!! r) = true) others ∧
    length (objs w') = length (objs w) ∧
    objs w' !!! self = MkParams m0 (_offsets p) (_i p + cursors w others) false ∧
    (∀ i r, others !! i = Some r →
       objs w' !!! r =
         MkParams (NdView (base m0) (off m0 + _i p + cursors w (take i others))
                          (_i (objs w !!! r)))
                  (_offsets (objs w !!! r)) (_i (objs w !!! r)) false) ∧
    (∀ r, r ≠ self → r ∉ others → objs w' !!! r = objs w !!! r).
Proof.
  intros p Hne Hrun.
  destruct (merge_params_sized _ _ _ _ Hne Hrun)
    as (bs & m0 & Hall & Hloop & Hm0 & Hwide). fold p in Hm0, Hwide.
  set (w1 := frozen self _) in Hloop.
  pose proof (merge_loop_ok self others w1 w' (frozen_self _ _) Hloop)
    as (Hnd & Hnin & _ & Hfit & Hlo & Hlb & Hs' & Hch & Hfr).
  specialize (Hfit Hne).
  assert (Hself : self < length (objs w)).
  { assert (self < length (objs w1)) by (apply wide_in_range; lia).
    unfold w1 in *; cbn in *. by rewrite !length_alter in *. }
  assert (Hp1 : objs w1 !!! self = set_allow_resize false (set_mem m0 p)).
  { unfold w1; cbn. rewrite obj_alter_eq by (by rewrite length_alter).
    by rewrite obj_alter_eq. }
  assert (Hfr1 : ∀ r, r ≠ self → objs w1 !!! r = objs w !!! r).
  { intros r ?. unfold w1; cbn. by rewrite !obj_alter_ne. }
  assert (Hcur : ∀ l, l ⊆ others → cursors w1 l = cursors w l).
  { intros l Hl. apply cursors_ext. intros r Hr. apply Hfr1.
    intros ->. by apply Hnin, Hl. }
  rewrite Hp1 in Hs', Hch; cbn in Hs', Hch.
  exists m0. split.
  { destruct Hm0 as [[-> ->]|(-> & ? & ? & Hbs & _)]; [left|right];
      repeat split; try done; by rewrite Hlb. }
  split; [done|]. split; [done|]. split; [done|]. split; [done|].
  split. { rewrite Hlo. unfold w1; cbn. by rewrite !length_alter. }
  split. { by rewrite Hs', Hcur. }
  split.
  - intros i r Hi. assert (r ∈ others) by by eapply list_elem_of_lookup_2.
    rewrite (Hch i r Hi), Hcur by apply subseteq_take.
    rewrite Hfr1; [done|]. by intros ->.
  - intros r ??. by rewrite Hfr, Hfr1.
Qed.

(** ** C2: what merge carves *)

(** C2 (as amended): a merge of a non-empty list of children that
    returns has carved, for each child in order, a region of exactly
    that child's cursor columns out of the parent's storage, and the
    parent's cursor has advanced by the sum of the children's cursors.
    The guard column of each child ([_i + 1]) is counted in the sizing
    of the parent only: the parent's width is at least its old cursor
    plus the committed sizes. *)
Theorem merge_carves_cursors (self : nat) (others : list nat) (w w' : world) :
  let p := objs w !!! self in
  let p' := objs w' !!! self in
  others ≠ [] →
  merge_params self others w = (Ok tt, w') →
  Forall (λ r, allow_resize (objs w !!! r) = true) others ∧
  _i p' = _i p + cursors w others ∧
  _i p + committed w others ≤ width (_mem p') ∧
  (∀ i r, others !! i = Some r →
     _mem (objs w' !!! r) =
       NdView (base (_mem p'))
              (off (_mem p') + _i p + cursors w (take i others))
              (_i (objs w !!! r))).
Proof.
  intros p p' Hne Hrun.
  destruct (merge_params_ok _ _ _ _ Hne Hrun)
    as (m0 & _ & Hwide & _ & _ & Hall & _ & Hs & Hch & _).
  unfold p'. rewrite Hs; cbn. repeat split; try done.
  intros i r Hi. by rewrite (Hch i r Hi).
Qed.

(** ** C10: the loop of merge never grows the parent *)

Lemma merge_loop_fits (self : nat) (others : list nat) :
  ∀ w,
  let p := objs w !!! self in
  self < length (objs w) →
  self ∉ others →
  _i p + committed w others ≤ width (_mem p) →
  (∀ e, value (merge_loop self others) w = Raise e →
        e = ValueError_replace_mem ∨ e = ValueError_broadcast) ∧
  length (bufs (run (merge_loop self others) w)) = length (bufs w).
Proof.
  induction others as [|other rest IH]; intros w p Hself Hnin Hfit.
  - split; [by intros e [=]|done].
  - apply not_elem_of_cons in Hnin as [Hne Hnin].
    assert (Hsum : committed w (other :: rest) =
                   _i (objs w !!! other) + 1 + committed w rest) by done.
    unfold value, run. rewrite merge_loop_cons, merge_step_run.
    rewrite get_blob_fit by (fold p; lia). fold p.
    set (o := objs w !!! other) in *.
    set (blob := NdView _ _ _).
    set (w1 := World _ _).
    assert (Ho1 : objs w1 !!! other = o).
    { unfold w1; cbn. by rewrite obj_alter_ne. }
    destruct (allow_resize o) eqn:Hres.
    + rewrite replace_mem_run by (by rewrite Ho1). rewrite Ho1.
      destruct (broadcast _ _ _) as [m|]; cbn; [|split; [intros e [= <-]; by right|done]].
      set (w2 := World _ _).
      assert (Hp2 : objs w2 !!! self = set_i (_i p + _i o) p).
      { unfold w2, w1; cbn. rewrite 2!obj_alter_ne by done.
        by rewrite obj_alter_eq. }
      assert (Hfr : ∀ r, r ∈ rest → _i (objs w2 !!! r) = _i (objs w !!! r)).
      { intros r Hr. unfold w2, w1; cbn.
        assert (r ≠ self) by (by intros ->).
        rewrite !list_lookup_total_alter.
        repeat case_decide; destruct_and?; subst; cbn;
          rewrite ?list_lookup_total_alter; repeat case_decide;
          destruct_and?; subst; done. }
      destruct (IH w2) as [He Hlen]; try done.
      { unfold w2, w1; cbn. by rewrite !length_alter. }
      { rewrite Hp2, (committed_ext_i w2 w) by done. cbn. lia. }
      split; [exact He|]. unfold run in Hlen. rewrite Hlen.
      unfold w2, w1; cbn. by rewrite length_alter.
    + rewrite replace_mem_frozen by (by rewrite Ho1). cbn.
      split; [intros e [= <-]; by left|done].
Qed.

Lemma committed_pos (w : world) (others : list nat) :
  others ≠ [] → 0 < committed w others.
Proof. rewrite committed_cursors. destruct others; [done|cbn; lia]. Qed.

(** C10 (as amended): for a merge whose children are resizable and
    different from the parent, and whose upfront sizing cannot fail on
    the flag (the parent is resizable, or already wide enough), the
    carving steps never reallocate: the merge never raises
    NotResizable, allocates at most the one buffer of the upfront
    sizing, and none at all when the parent was wide enough. *)
Theorem merge_carving_never_grows (self : nat) (others : list nat) (w : world) :
  let p := objs w !!! self in
  self ∉ others →
  Forall (λ r, allow_resize (objs w !!! r) = true) others →
  allow_resize p = true ∨ _i p + committed w others ≤ width (_mem p) →
  (∀ e, value (merge_params self others) w = Raise e → ¬ NotResizable e) ∧
  length (bufs (run (merge_params self others) w)) ≤ S (length (bufs w)) ∧
  (_i p + committed w others ≤ width (_mem p) →
   length (bufs (run (merge_params self others) w)) = length (bufs w)).
Proof.
  intros p Hnin Hall Hsz.
  destruct (decide (others = [])) as [->|Hne].
  { split; [by intros e [=]|]. cbn. split; [lia|done]. }
  pose proof (committed_pos w others Hne) as Hpos.
  assert (Hself : self < length (objs w)).
  { destruct Hsz; [by apply resizable_in_range|apply wide_in_range; fold p; lia]. }
  unfold value, run. rewrite merge_params_run by done. unfold sized. fold p.
  destruct (Nat.ltb_spec (width (_mem p)) (_i p + committed w others)) as [Hlt|Hge].
  - destruct Hsz as [Hres|?]; [|lia].
    destruct (realloc_cases self (_i p + committed w others) w Hres)
      as (bs & Hbs & [Hr|Hr]); rewrite Hr.
    { cbn. split; [by intros e [= <-]|]. split; [lia|lia]. }
    set (w1 := frozen self _).
    destruct (merge_loop_fits self others w1) as [He Hlen]; try done.
    { unfold w1; cbn. by rewrite !length_alter. }
    { unfold w1; cbn. rewrite obj_alter_eq by (by rewrite length_alter).
      rewrite obj_alter_eq by done. cbn. fold p.
      rewrite (committed_ext _ w); [done|].
      intros r Hin. cbn. rewrite 2!obj_alter_ne; [done|by intros ->..]. }
    unfold value, run in He, Hlen. rewrite Hlen.
    split; [|cbn; split; lia].
    intros e Hraise. by destruct (He e Hraise) as [->| ->].
  - set (w1 := frozen self w).
    destruct (merge_loop_fits self others w1) as [He Hlen]; try done.
    { unfold w1; cbn. by rewrite !length_alter. }
    { unfold w1; cbn. rewrite obj_alter_eq by done. cbn. fold p.
      rewrite (committed_ext _ w); [done|].
      intros r Hr. cbn. rewrite obj_alter_ne; [done|by intros ->]. }
    unfold value, run in He, Hlen. rewrite Hlen.
    split; [|cbn; split; [lia|done]].
    intros e Hraise. by destruct (He e Hraise) as [->| ->].
Qed.

(** ** C3: a frozen arena keeps its buffer *)

Section stable.
Variables (a : nat) (m : ndview).

Lemma stable_update_ne (r : nat) (f : Params → Params)
    (bs bs' : list (list (list Z))) (l : list Params) :
  r ≠ a → stable a m (World bs l) → stable a m (World bs' (alter f r l)).
Proof. intros Hne H. unfold stable in *; cbn in *. by rewrite obj_alter_ne. Qed.

Lemma stable_update (r : nat) (f : Params → Params)
    (bs bs' : list (list (list Z))) (l : list Params) :
  (∀ p, _mem (f p) = _mem p) →
  (∀ p, allow_resize p = false → allow_resize (f p) = false) →
  stable a m (World bs l) → stable a m (World bs' (alter f r l)).
Proof.
  intros Hmem Hflag [H1 H2]. unfold stable; cbn in *.
  rewrite list_lookup_total_alter. case_decide as Hd; [|done].
  destruct Hd as [-> _]. rewrite Hmem. split; [done|by apply Hflag].
Qed.

Lemma stable_bufs (bs : list (list (list Z))) (w : world) :
  stable a m w → stable a m (World bs (objs w)).
Proof. done. Qed.

Lemma realloc_stable (r n : nat) (w : world) :
  stable a m w → stable a m (run (_realloc r n) w).
Proof.
  destruct w as [bs l]. intros H.
  unfold run, _realloc, mbind, M_bind, obj; cbn.
  destruct (allow_resize (l !!! r)) eqn:Hres; cbn; [|done].
  unfold assign; cbn. destruct (broadcast _ _ _); cbn; [|done].
  eapply stable_update_ne; [|done]. intros ->. destruct H. cbn in *. congruence.
Qed.

Lemma get_blob_stable (r n : nat) (w : world) :
  stable a m w → stable a m (run (_get_blob r n) w).
Proof.
  intros H. unfold run, _get_blob, mbind, M_bind, obj, when_; cbn.
  destruct (_ <? _)%Z.
  - pose proof (realloc_stable r (width (_mem (objs w !!! r)) `max` n * 2) w H) as H'.
    unfold run in H'. destruct (_realloc _ _ _) as [[[]|e] [bs1 l1]]; cbn in *; [|done].
    by eapply stable_update.
  - destruct w as [bs l]; cbn. by eapply stable_update.
Qed.

Lemma replace_mem_stable (r : nat) (mem : ndview) (w : world) :
  stable a m w → stable a m (run (replace_mem r mem) w).
Proof.
  destruct w as [bs l]. intros H.
  unfold run, replace_mem, mbind, M_bind, obj; cbn.
  destruct (allow_resize (l !!! r)) eqn:Hres; cbn; [|done].
  assert (r ≠ a) by (intros ->; destruct H; cbn in *; congruence).
  unfold assign; cbn. destruct (broadcast _ _ _); cbn.
  - eapply stable_update_ne; [done|]. by eapply (stable_update_ne _ _ bs bs).
  - by eapply stable_update_ne.
Qed.

Lemma merge_step_stable (self other : nat) (w : world) :
  stable a m w → stable a m (run (merge_step self other) w).
Proof.
  intros H. unfold run. rewrite merge_step_run.
  pose proof (get_blob_stable self (_i (objs w !!! other)) w H) as H1.
  unfold run in H1. destruct (_get_blob _ _ _) as [[blob|e] w1]; cbn in *; [|done].
  by apply replace_mem_stable.
Qed.

Lemma merge_loop_stable (self : nat) (others : list nat) :
  ∀ w, stable a m w → stable a m (run (merge_loop self others) w).
Proof.
  induction others as [|other rest IH]; intros w H; [done|].
  unfold run. rewrite merge_loop_cons.
  pose proof (merge_step_stable self other w H) as H1.
  unfold run in H1. destruct (merge_step _ _ _) as [[[]|e] w1]; cbn in *; [|done].
  by apply IH.
Qed.

Lemma frozen_stable (self : nat) (w : world) :
  stable a m w → stable a m (frozen self w).
Proof. destruct w as [bs l]. intros H. by eapply stable_update. Qed.

Lemma merge_params_stable (self : nat) (others : list nat) (w : world) :
  stable a m w → stable a m (run (merge_params self others) w).
Proof.
  intros H. destruct others as [|o rest]; [done|].
  destruct (forallb allow_resize ((λ r, objs w !!! r) <$> o :: rest)) eqn:Hall.
  - apply forallb_resizable in Hall.
    unfold run. rewrite merge_params_run by done. unfold sized.
    destruct (_ <? _).
    + pose proof (realloc_stable self
        (_i (objs w !!! self) + committed w (o :: rest)) w H) as H1.
      unfold run in H1. destruct (_realloc _ _ _) as [[[]|e] w1]; cbn in H1; [|done].
      by apply (merge_loop_stable self (o :: rest)), frozen_stable.
    + by apply (merge_loop_stable self (o :: rest)), frozen_stable.
  - unfold run, merge_params, mbind, M_bind. by rewrite Hall.
Qed.

Lemma add_stable (self : nat) (name : string) (shape : list nat) (w : world) :
  stable a m w → stable a m (run (add self name shape) w).
Proof.
  destruct w as [bs l]. intros H.
  unfold run, add, mbind, M_bind, obj, update; cbn.
  set (w0 := World _ _).
  assert (H0 : stable a m w0) by by eapply stable_update.
  pose proof (get_blob_stable self (prod shape) w0 H0) as H1.
  unfold run in H1. destruct (_get_blob _ _ _) as [[blob|e] w1]; cbn in *; [|done].
  unfold reshape. by case_decide.
Qed.

Lemma alloc_gradients_stable (self : nat) (w : world) :
  self ≠ a → stable a m w → stable a m (run (_alloc_gradients self) w).
Proof.
  destruct w as [bs l]. intros Hne H.
  unfold run, _alloc_gradients, mbind, M_bind, obj, row0; cbn.
  destruct (view_data _ _); cbn; [done|].
  unfold assign_row0. case_decide; cbn; [done|].
  destruct (stretch _ _); cbn; [|done].
  by eapply stable_update_ne.
Qed.

Lemma get_stable (self : nat) (name : string) (w : world) :
  ¬ grows_gradient_row a (Get self name) w →
  stable a m w → stable a m (run (get self name) w).
Proof.
  intros Hgrow H. unfold run.
  destruct (String.prefix "d_" name) eqn:Hpre.
  - destruct (gradient_of_prefix _ Hpre) as [bn Hbn].
    rewrite (get_gradient_run _ _ _ _ Hbn).
    case_decide as Hsh; [|by rewrite get_at_run].
    destruct (decide (self = a)) as [->|Hne].
    { exfalso. apply Hgrow. by repeat split. }
    pose proof (alloc_gradients_stable self w Hne H) as H1.
    unfold run in H1. destruct (_alloc_gradients _ _) as [[[]|e] w1]; cbn in *; [|done].
    by rewrite get_at_run.
  - unfold get, gradient_of. rewrite Hpre. by rewrite get_at_run.
Qed.
End stable.

(** C3 (as amended): once the resizable flag of an arena is false, no
    [get] of a name without the gradient prefix, no [get] of a
    gradient-prefixed name made when the buffer already has two rows,
    no [add] and no merge, on this arena or on any other, changes the
    view [_mem] of the arena (hence the identity of its backing
    buffer), and the flag stays false. *)
Theorem frozen_buffer_identity (a : nat) (o : op) (w : world) :
  allow_resize (objs w !!! a) = false →
  ¬ grows_gradient_row a o w →
  _mem (objs (exec o w) !!! a) = _mem (objs w !!! a) ∧
  allow_resize (objs (exec o w) !!! a) = false.
Proof.
  intros Hfrozen Hgrow.
  assert (H : stable a (_mem (objs w !!! a)) w) by done.
  destruct o as [self name|self name shape|self others]; cbn.
  - by apply get_stable.
  - by apply add_stable.
  - by apply merge_params_stable.
Qed.

(** ** The content that merge copies *)

Lemma broadcast_rows (rows k : nat) (src m : list (list Z)) :
  Forall (λ r, length r = k) src →
  broadcast rows k src = Some m →
  0 < rows →
  length m = rows ∧ Forall (λ r, length r = k) m ∧ m !!! 0 = src !!! 0.
Proof.
  intros Hk Hb Hrows. unfold broadcast in Hb.
  destruct (stretch rows src) as [rs|] eqn:Hrs; [|done]. cbn in Hb.
  assert (length rs = rows ∧ Forall (λ r, length r = k) rs ∧ rs !!! 0 = src !!! 0)
    as (Hlen & Hrk & H0).
  { unfold stretch in Hrs. case_decide as Hd.
    - by injection Hrs as <-.
    - destruct src as [|x [|??]]; [done| |done]. injection Hrs as <-.
      rewrite length_replicate. split; [done|]. split.
      + apply Forall_replicate. by inversion Hk.
      + destruct rows; [lia|done]. }
  rewrite mapM_stretch_same in Hb by done. by injection Hb as <-.
Qed.

Lemma view_rows_length (w : world) (v : ndview) (k : nat) :
  view_ok w v → k ≤ width v →
  Forall (λ r : list Z, length r = k) (view_data w (cols v 0 k)).
Proof.
  intros (_ & _ & Hall) Hk. unfold view_data.
  rewrite cols_inside by lia; cbn. apply Forall_fmap.
  eapply Forall_impl; [exact Hall|]. cbn. intros row Hrow.
  rewrite Nat.add_0_r, Nat.sub_0_r. apply length_window. lia.
Qed.

Lemma view_row0 (w : world) (v : ndview) (k : nat) :
  view_ok w v → k ≤ width v →
  view_data w (cols v 0 k) !!! 0 = take k (drop (off v) ((bufs w !!! base v) !!! 0)).
Proof.
  intros Hok Hk. destruct (view_ok_row0 _ _ Hok) as (rest & Hrows & _).
  unfold view_data. rewrite cols_inside by lia; cbn. rewrite Hrows; cbn.
  by rewrite Nat.add_0_r, Nat.sub_0_r.
Qed.

(** One step of the loop, seen on the buffers. *)
Lemma merge_step_bufs (self other : nat) (w w' : world) :
  let p := objs w !!! self in
  let o := objs w !!! other in
  allow_resize p = false →
  merge_step self other w = (Ok tt, w') →
  view_ok w (_mem p) →
  view_ok w (_mem o) → _i o ≤ width (_mem o) →
  view_ok w' (_mem p) ∧
  length (bufs w') = length (bufs w) ∧
  (∀ b, b ≠ base (_mem p) → bufs w' !!! b = bufs w !!! b) ∧
  (∀ a n, a + n ≤ off (_mem p) + _i p →
     take n (drop a (buf_row0 w' (base (_mem p)))) =
     take n (drop a (buf_row0 w (base (_mem p))))) ∧
  take (_i o) (drop (off (_mem p) + _i p) (buf_row0 w' (base (_mem p)))) =
  take (_i o) (drop (off (_mem o)) (buf_row0 w (base (_mem o)))).
Proof.
  intros p o Hfrozen Hstep Hokp Hoko Hio.
  destruct (merge_step_ok _ _ _ _ Hfrozen Hstep) as (Hne & Hres & Hfit & m & Hb & ->).
  fold p o in Hfit, Hb |- *. cbn in Hb.
  pose proof Hokp as (Hbase & Hrows & Hall).
  destruct (broadcast_rows _ _ _ _ (view_rows_length _ _ _ Hoko Hio) Hb Hrows)
    as (Hlen & Hmk & Hm0).
  rewrite view_row0 in Hm0 by done.
  destruct (view_ok_row0 _ _ Hokp) as (rest & Hprows & Hplen).
  unfold shape0 in Hlen, Hrows; cbn in Hlen.
  destruct m as [|x m']; [cbn in Hlen; lia|]. cbn in Hm0. subst x.
  inversion Hmk as [|?? Hxlen Hm'k]; subst.
  set (x := take (_i o) (drop (off (_mem o)) _)) in *.
  assert (Hrow0' : ∀ bs, buf_row0 (World (alter (zip_with (splice (off (_mem p) + _i p))
                      (x :: m')) (base (_mem p)) (bufs w)) bs) (base (_mem p)) =
                   splice (off (_mem p) + _i p) x (buf_row0 w (base (_mem p)))).
  { intros bs. unfold buf_row0; cbn.
    rewrite list_lookup_total_alter_eq by done. by rewrite Hprows. }
  split; [|split; [|split; [|split]]].
  - split; [cbn; by rewrite length_alter|]. unfold shape0; cbn [bufs base off].
    rewrite list_lookup_total_alter_eq by done.
    split; [rewrite length_zip_with; lia|].
    eapply Forall_zip_with_fst; [exact Hmk|].
    eapply Forall_impl; [exact Hall|]. cbv beta.
    intros row Hrow r Hr. rewrite length_splice; lia.
  - cbn. by rewrite length_alter.
  - intros b Hbne. cbn. by rewrite list_lookup_total_alter_ne.
  - intros a n Han. rewrite Hrow0'. apply splice_before; [|lia].
    unfold buf_row0. lia.
  - rewrite Hrow0'. rewrite splice_read; [done| |done]. unfold buf_row0. lia.
Qed.

Lemma view_ok_transfer (w w1 : world) (v : ndview) :
  length (bufs w) ≤ length (bufs w1) →
  bufs w1 !!! base v = bufs w !!! base v →
  view_ok w v → view_ok w1 v.
Proof.
  intros Hlen Hsame (Hb & Hr & Hall). unfold view_ok, shape0 in *.
  rewrite Hsame. repeat split; [lia|done|done].
Qed.

Lemma merge_loop_bufs (self : nat) (others : list nat) :
  ∀ w w',
  let p := objs w !!! self in
  let pm := _mem p in
  allow_resize p = false →
  merge_loop self others w = (Ok tt, w') →
  view_ok w pm →
  (∀ r, r ∈ others → child_ok w pm r) →
  view_ok w' pm ∧
  (∀ b, b ≠ base pm → bufs w' !!! b = bufs w !!! b) ∧
  (∀ a n, a + n ≤ off pm + _i p →
     take n (drop a (buf_row0 w' (base pm))) =
     take n (drop a (buf_row0 w (base pm)))) ∧
  (∀ i r, others !! i = Some r →
     let o := objs w !!! r in
     take (_i o) (drop (off pm + _i p + cursors w (take i others))
                       (buf_row0 w' (base pm))) =
     take (_i o) (drop (off (_mem o)) (buf_row0 w (base (_mem o))))).
Proof.
  induction others as [|other rest IH]; intros w w' p pm Hfrozen Hrun Hokp Hch.
  - cbn in Hrun. injection Hrun as <-.
    split; [done|]. split; [done|]. split; [done|]. by intros i r Hi.
  - pose proof (merge_loop_ok _ _ _ _ Hfrozen Hrun) as (Hnd & Hnin & _).
    apply NoDup_cons in Hnd as [Hnotin Hnd].
    apply not_elem_of_cons in Hnin as [Hne Hnin].
    rewrite merge_loop_cons in Hrun.
    destruct (merge_step self other w) as [[[]|e] w1] eqn:Hstep; [|done].
    destruct (Hch other) as (Hoko & Hio & Hbo); [by left|].
    destruct (merge_step_bufs _ _ _ _ Hfrozen Hstep Hokp Hoko Hio)
      as (Hokp1 & Hlen1 & Hoth1 & Hpre1 & Hreg1).
    destruct (merge_step_ok _ _ _ _ Hfrozen Hstep)
      as (_ & Hres & Hfit & m & _ & Hw1).
    fold p pm in Hokp1, Hoth1, Hpre1, Hreg1, Hfit.
    set (o := objs w !!! other) in *.
    assert (Hself : self < length (objs w)) by (apply wide_in_range; fold p pm; lia).
    assert (Hp1 : objs w1 !!! self = set_i (_i p + _i o) p).
    { rewrite Hw1; cbn. by apply step_objs_self. }
    assert (Hfr1 : ∀ r, r ∈ rest → objs w1 !!! r = objs w !!! r).
    { intros r Hr. rewrite Hw1; cbn. apply step_objs_frame; by intros ->. }
    destruct (IH w1 w') as (Hokp' & Hoth' & Hpre' & Hreg').
    { by rewrite Hp1. }
    { done. }
    { by rewrite Hp1. }
    { intros r Hr. destruct (Hch r) as (Hokr & Hir & Hbr); [by right|].
      unfold child_ok. rewrite Hp1, Hfr1 by done. cbn. fold pm.
      split; [|done]. apply (view_ok_transfer w w1); [lia| |done]. by apply Hoth1. }
    rewrite Hp1 in Hokp', Hoth', Hpre', Hreg'.
    cbn in Hokp', Hoth', Hpre', Hreg'. fold pm in Hokp', Hoth', Hpre', Hreg'.
    split; [done|]. split.
    { intros b Hb. by rewrite Hoth', Hoth1. }
    split.
    { intros a n Han. rewrite Hpre' by lia. by apply Hpre1. }
    intros [|i] r Hi; cbn in Hi.
    + injection Hi as <-. cbn. fold o. rewrite Nat.add_0_r.
      rewrite Hpre' by lia. done.
    + assert (Hr : r ∈ rest) by by eapply list_elem_of_lookup_2.
      destruct (Hch r) as (_ & _ & Hbr); [by right|].
      specialize (Hreg' i r Hi). cbn in Hreg'.
      rewrite Hfr1 in Hreg' by done.
      rewrite (cursors_ext w1 w) in Hreg'
        by (intros x Hx; apply Hfr1; by eapply subseteq_take).
      cbv zeta. rewrite cursors_cons_take. fold o.
      replace (off pm + _i p + (_i o + cursors w (take i rest)))
        with (off pm + (_i p + _i o) + cursors w (take i rest)) by lia.
      rewrite Hreg'. unfold buf_row0. by rewrite Hoth1.
Qed.

Lemma view_ok_grown (w : world) (pm : ndview) (k n : nat) (l : list Params) :
  view_ok w pm → k ≤ width pm → k ≤ n →
  view_ok (World (bufs w ++ [grown w pm k n]) l) (NdView (length (bufs w)) 0 n).
Proof.
  intros (Hb & Hr & Hall) Hk Hn. unfold view_ok, shape0 in *; cbn.
  rewrite bufs_app_new, length_app; cbn. unfold grown.
  split; [lia|]. split; [by rewrite length_fmap|].
  apply Forall_fmap. eapply Forall_impl; [exact Hall|]. cbn.
  intros row Hrow. rewrite length_app, length_replicate, length_window; lia.
Qed.

(** The regions that a merge hands to the children hold, in row 0, the
    committed cells that the children had. *)
Lemma merge_params_content (self : nat) (others : list nat) (w w' : world) :
  let p := objs w !!! self in
  let pm' := _mem (objs w' !!! self) in
  others ≠ [] →
  merge_params self others w = (Ok tt, w') →
  view_ok w (_mem p) → _i p + 1 ≤ width (_mem p) →
  (∀ r, r ∈ others → child_ok w (_mem p) r) →
  view_ok w' pm' ∧
  ∀ i r, others !! i = Some r →
    let o := objs w !!! r in
    let o' := objs w' !!! r in
    base (_mem o') = base pm' ∧
    take (_i o) (drop (off (_mem o')) (buf_row0 w' (base pm'))) =
    take (_i o) (drop (off (_mem o)) (buf_row0 w (base (_mem o)))).
Proof.
  intros p pm' Hne Hrun Hokp Hip Hch.
  destruct (merge_params_sized _ _ _ _ Hne Hrun)
    as (bs & m0 & Hall & Hloop & Hm0 & Hwide). fold p in Hm0, Hwide.
  set (w1 := frozen self _) in Hloop.
  pose proof (merge_loop_ok self others w1 w' (frozen_self _ _) Hloop)
    as (_ & Hnin & _ & _ & _ & _ & Hs' & Hobj & _).
  assert (Hself : self < length (objs w)) by (apply wide_in_range; fold p; lia).
  assert (Hp1 : objs w1 !!! self = set_allow_resize false (set_mem m0 p)).
  { unfold w1; cbn. rewrite obj_alter_eq by (by rewrite length_alter).
    by rewrite obj_alter_eq. }
  assert (Hfr1 : ∀ r, r ∈ others → objs w1 !!! r = objs w !!! r).
  { intros r Hr. unfold w1; cbn. rewrite !obj_alter_ne; [done|by intros ->..]. }
  assert (view_ok w1 m0 ∧ length (bufs w) ≤ length bs ∧
                  (∀ b, b < length (bufs w) → bs !!! b = bufs w !!! b) ∧
                  (∀ r, r ∈ others → base (_mem (objs w !!! r)) ≠ base m0))
    as (Hok1 & Hlen & Hold & Hbase).
  { destruct Hm0 as [[-> ->]|(-> & Hres & Hlt & _ & Hre)].
    - split; [by apply (view_ok_transfer w)|]. split; [done|]. split; [done|].
      intros r Hr. by destruct (Hch r Hr) as (_ & _ & ?).
    - pose proof (committed_pos w others Hne).
      rewrite realloc_run in Hre by (fold p; done || lia). fold p in Hre.
      injection Hre as <-.
      split; [apply view_ok_grown; [done|lia..]|].
      split; [rewrite length_app; lia|].
      split; [intros b Hb; by apply bufs_app_old|].
      intros r Hr. destruct (Hch r Hr) as ((Hb & _) & _ & _). cbn. cbn in Hb. lia. }
  destruct (merge_loop_bufs self others w1 w' (frozen_self _ _) Hloop)
    as (Hok' & _ & _ & Hreg).
  { by rewrite Hp1. }
  { intros r Hr. destruct (Hch r Hr) as (Hokr & Hir & _).
    unfold child_ok. rewrite Hp1, Hfr1 by done. cbn.
    split; [|split; [done|by apply Hbase]].
    pose proof Hokr as (Hb & _).
    apply (view_ok_transfer w w1); [done| |done]. by apply Hold. }
  rewrite Hp1 in Hok', Hreg, Hs', Hobj; cbn in Hok', Hreg, Hs', Hobj.
  assert (Hpm' : pm' = m0) by (unfold pm'; by rewrite Hs').
  rewrite Hpm'. split; [done|].
  intros i r Hi o o'.
  assert (Hr : r ∈ others) by by eapply list_elem_of_lookup_2.
  specialize (Hreg i r Hi). specialize (Hobj i r Hi).
  rewrite Hfr1 in Hreg, Hobj by done. fold o in Hreg, Hobj.
  unfold o'. rewrite Hobj; cbn. split; [done|].
  rewrite Hreg. unfold buf_row0. cbn.
  destruct (Hch r Hr) as ((Hb & _) & _ & _). by rewrite Hold.
Qed.

(** ** C4: merging two children *)

Lemma get_in_bounds (c : nat) (name : string) (offset : nat) (shape : list nat)
    (w : world) :
  let o := objs w !!! c in
  String.prefix "d_" name = false →
  _offsets o !! name = Some (offset, shape) →
  offset + prod shape ≤ width (_mem o) →
  0 < shape0 w (_mem o) →
  value (get c name) w =
    Ok (Some (Blob (base (_mem o)) 0 (off (_mem o) + offset) (prod shape) shape)).
Proof.
  intros o Hpre Hent Hfit Hrows. unfold value, get, gradient_of.
  rewrite Hpre, get_at_run. fold o. rewrite Hent; cbn.
  rewrite decide_False by lia. rewrite cols_inside by lia; cbn.
  rewrite decide_True by lia. rewrite Nat.min_l by lia.
  do 3 f_equal. lia.
Qed.

Lemma window_of_prefix (c offset n : nat) (X Y : list Z) :
  take c X = take c Y → offset + n ≤ c →
  take n (drop offset X) = take n (drop offset Y).
Proof.
  intros H Hb. rewrite <- (window_take offset n c X), <- (window_take offset n c Y) by done.
  by rewrite H.
Qed.

Lemma blob_store_read (b b' : blob) (xs : list Z) (w : world) :
  blob_base b' = blob_base b → blob_row b' = blob_row b →
  blob_off b' = blob_off b → blob_len b' = blob_len b →
  blob_base b < length (bufs w) →
  blob_row b < length (bufs w !!! blob_base b) →
  blob_off b ≤ length ((bufs w !!! blob_base b) !!! blob_row b) →
  blob_len b = length xs →
  blob_data (blob_store b xs w) b' = xs.
Proof.
  intros E1 E2 E3 E4 Hb Hr Ho Hl. unfold blob_data, blob_store; cbn.
  rewrite E1, E2, E3, E4, !list_lookup_total_alter_eq by done.
  by apply splice_read.
Qed.

(** C4: after a merge of two children that returns, the parent and both
    children are frozen; each child keeps its directory, and its buffer
    view is a sub-range of the parent's view on the parent's buffer;
    every value blob recorded within the child's cursor is returned by
    the child's [get] with its recorded shape and the content it had
    before; a write to those cells made through the parent's buffer is
    what the child's [get] then reads, and a write through the child's
    view is what a read through the parent's buffer gives. *)
Theorem merge_two_children (parent childA childB : nat) (w w' : world) :
  let p := objs w !!! parent in
  let pm' := _mem (objs w' !!! parent) in
  merge_params parent [childA; childB] w = (Ok tt, w') →
  view_ok w (_mem p) → _i p + 1 ≤ width (_mem p) →
  child_ok w (_mem p) childA → child_ok w (_mem p) childB →
  allow_resize (objs w' !!! parent) = false ∧
  ∀ c, c ∈ [childA; childB] →
    let o := objs w !!! c in
    let o' := objs w' !!! c in
    allow_resize o = true ∧ allow_resize o' = false ∧
    _offsets o' = _offsets o ∧
    base (_mem o') = base pm' ∧
    off pm' ≤ off (_mem o') ∧
    off (_mem o') + width (_mem o') ≤ off pm' + width pm' ∧
    ∀ name offset shape,
      String.prefix "d_" name = false →
      _offsets o !! name = Some (offset, shape) →
      offset + prod shape ≤ _i o →
      ∃ b b',
        value (get c name) w = Ok (Some b) ∧
        value (get c name) w' = Ok (Some b') ∧
        blob_shape b = shape ∧ blob_shape b' = shape ∧
        blob_data w' b' = blob_data w b ∧
        ∀ xs, length xs = prod shape →
          let k := off (_mem o') - off pm' + offset in
          let pb := Blob (base pm') 0 (off pm' + k) (prod shape) [prod shape] in
          value (row_blob pm' 0 k (k + prod shape) [prod shape]) w' = Ok pb ∧
          value (get c name) (blob_store pb xs w') = Ok (Some b') ∧
          blob_data (blob_store pb xs w') b' = xs ∧
          blob_data (blob_store b' xs w') pb = xs.
Proof.
  intros p pm' Hrun Hokp Hip HokA HokB.
  assert (Hne : [childA; childB] ≠ []) by done.
  assert (Hch : ∀ r, r ∈ [childA; childB] → child_ok w (_mem p) r).
  { intros r Hr. apply elem_of_cons in Hr as [->|Hr]; [done|].
    apply list_elem_of_singleton in Hr as ->. done. }
  destruct (merge_params_ok _ _ _ _ Hne Hrun)
    as (m0 & _ & Hwide & _ & _ & Hall & _ & Hs & Hobj & _).
  destruct (merge_params_content _ _ _ _ Hne Hrun Hokp Hip Hch) as (Hok' & Hreg).
  fold p in Hwide, Hs, Hobj. fold pm' in Hok', Hreg.
  assert (Hpm' : pm' = m0) by (unfold pm'; by rewrite Hs).
  split; [by rewrite Hs|].
  intros c Hc o o'.
  assert (∃ i, [childA; childB] !! i = Some c ∧
               cursors w (take i [childA; childB]) + _i o + 1
                 ≤ committed w [childA; childB]) as (i & Hi & Hcur).
  { apply elem_of_cons in Hc as [->|Hc].
    - exists 0. split; [done|]. unfold cursors, committed; cbn. fold o. lia.
    - apply list_elem_of_singleton in Hc as ->. exists 1. split; [done|].
      unfold cursors, committed; cbn. fold o. lia. }
  specialize (Hobj i c Hi). specialize (Hreg i c Hi). cbn in Hreg.
  fold o o' in Hobj, Hreg. destruct Hreg as [Hbase Hreg].
  rewrite Forall_forall in Hall. specialize (Hall c Hc). fold o in Hall.
  destruct (Hch c Hc) as (Hoko & Hio & _). fold o in Hoko, Hio.
  pose proof Hok' as (Hb' & Hrows' & Hall').
  destruct (view_ok_row0 _ _ Hok') as (rest' & Hprows' & Hplen').
  pose proof Hoko as (_ & Hrowso & _).
  assert (Hoff : off (_mem o') = off m0 + _i p + cursors w (take i [childA; childB]))
    by by rewrite Hobj.
  assert (Hwid : width (_mem o') = _i o) by by rewrite Hobj.
  assert (Hoffs : _offsets o' = _offsets o) by by rewrite Hobj.
  split; [done|]. split; [by rewrite Hobj|]. split; [done|].
  split; [done|]. rewrite Hpm' in *.
  split; [lia|]. split; [lia|].
  intros name offset shape Hpre Hent Hfit. subst o o'.
  set (o := objs w !!! c) in *. set (o' := objs w' !!! c) in *.
  exists (Blob (base (_mem o)) 0 (off (_mem o) + offset) (prod shape) shape),
         (Blob (base (_mem o')) 0 (off (_mem o') + offset) (prod shape) shape).
  split. { apply get_in_bounds; fold o; try done. lia. }
  split. { apply get_in_bounds; fold o'; try done.
           - by rewrite Hoffs.
           - lia.
           - unfold shape0 in *. by rewrite Hbase. }
  split; [done|]. split; [done|].
  split.
  { unfold blob_data; cbn [blob_len blob_off blob_base blob_row].
    rewrite Hbase. fold (buf_row0 w (base (_mem o))) (buf_row0 w' (base m0)).
    rewrite <- !drop_drop. by apply (window_of_prefix (_i o)). }
  intros xs Hxs k pb.
  assert (Hk : off m0 + k = off (_mem o') + offset) by (unfold k; lia).
  split.
  { unfold value, row_blob. rewrite decide_False by (unfold shape0 in *; lia).
    rewrite cols_inside by (unfold k; lia). cbn.
    rewrite decide_True by lia. cbn. unfold pb. do 2 f_equal. lia. }
  assert (Hpb : pb = Blob (base m0) 0 (off (_mem o') + offset) (prod shape)
                       [prod shape]) by (unfold pb; by rewrite Hk).
  split.
  { apply get_in_bounds; cbn; fold o'; try done.
    - by rewrite Hoffs.
    - lia.
    - unfold shape0 in *; cbn. rewrite Hbase.
      rewrite list_lookup_total_alter_eq by done. by rewrite length_alter. }
  rewrite Hpb, Hbase. unfold shape0, buf_row0 in *.
  split; apply blob_store_read; cbn; try done; lia.
Qed.

(** ** [add] *)

Lemma add_fit (self : nat) (name : string) (shape : list nat) (w : world) :
  let p := objs w !!! self in
  let m := _mem p in
  let w' := World (bufs w)
              (alter (set_i (_i p + prod shape)) self
                 (alter (set_offsets (<[name := (_i p, shape)]> (_offsets p))) self
                    (objs w))) in
  self < length (objs w) →
  _i p + prod shape + 1 ≤ width m →
  add self name shape w =
    (if decide (shape0 w m * prod shape = prod shape)
     then Ok (Blob (base m) 0 (off m + _i p) (prod shape) shape)
     else Raise ValueError_reshape, w').
Proof.
  intros p m w' Hself Hfit. unfold add, mbind, M_bind, obj, update; cbn. fold p.
  set (w0 := World _ _).
  assert (Hp0 : objs w0 !!! self =
                set_offsets (<[name := (_i p, shape)]> (_offsets p)) p)
    by (unfold w0; cbn; by rewrite obj_alter_eq).
  rewrite get_blob_fit by (rewrite Hp0; cbn; fold m; lia).
  rewrite Hp0; cbn. fold m. unfold reshape, shape0; cbn.
  by case_decide.
Qed.

(** On an arena of one row with room left, [add] hands out the next
    [prod shape] cells of row 0 and a later [get] of the name returns
    the same cells with the same shape. *)
Lemma add_then_get (self : nat) (name : string) (shape : list nat) (w : world) :
  let p := objs w !!! self in
  let m := _mem p in
  let b := Blob (base m) 0 (off m + _i p) (prod shape) shape in
  self < length (objs w) →
  shape0 w m = 1 →
  _i p + prod shape + 1 ≤ width m →
  String.prefix "d_" name = false →
  value (add self name shape) w = Ok b ∧
  _offsets (objs (run (add self name shape) w) !!! self) !! name
    = Some (_i p, shape) ∧
  value (get self name) (run (add self name shape) w) = Ok (Some b).
Proof.
  intros p m b Hself Hrows Hfit Hpre. unfold value, run.
  rewrite add_fit by done. fold p m. rewrite Hrows, decide_True by lia. cbn.
  rewrite !obj_alter_eq by (by rewrite ?length_alter). cbn.
  rewrite lookup_insert_eq. split; [done|]. split; [done|].
  pose proof (get_in_bounds self name (_i p) shape
    (World (bufs w)
       (alter (set_i (_i p + prod shape)) self
          (alter (set_offsets (<[name := (_i p, shape)]> (_offsets p))) self
             (objs w))))) as H.
  cbn in H. rewrite !obj_alter_eq in H by (by rewrite ?length_alter).
  cbn in H. rewrite lookup_insert_eq in H. fold m in H.
  unfold shape0, m, p in *; cbn in *. apply H; try done; lia.
Qed.

(** On an arena of two rows with room left, the blob [add] takes spans
    both rows, and its [reshape] to [shape] is refused; the directory
    entry and the cursor stay changed. *)
Lemma add_two_rows (self : nat) (name : string) (shape : list nat) (w : world) :
  let p := objs w !!! self in
  let m := _mem p in
  self < length (objs w) →
  shape0 w m = 2 →
  _i p + prod shape + 1 ≤ width m →
  prod shape ≠ 0 →
  value (add self name shape) w = Raise ValueError_reshape ∧
  _i (objs (run (add self name shape) w) !!! self) = _i p + prod shape.
Proof.
  intros p m Hself Hrows Hfit Hn. unfold value, run.
  rewrite add_fit by done. fold p m. rewrite Hrows, decide_False by lia. cbn.
  rewrite !obj_alter_eq by (by rewrite ?length_alter). done.
Qed.

(** X17: growth on [add].  On a resizable arena whose guard column lies
    inside the buffer, an [add] that does not fit allocates exactly one
    buffer, of [max capacity request * 2] columns, which receives the
    committed columns of every row; the arena moves to it, and the
    cells of every earlier blob are found at the same offsets. *)
Lemma add_grows (self : nat) (name : string) (shape : list nat) (w : world) :
  let p := objs w !!! self in
  let m := _mem p in
  let n := width m `max` prod shape * 2 in
  let m' := NdView (length (bufs w)) 0 n in
  let w' := run (add self name shape) w in
  self < length (objs w) →
  allow_resize p = true →
  view_ok w m →
  _i p + 1 ≤ width m →
  width m < _i p + prod shape + 1 →
  bufs w' = bufs w ++ [grown w m (_i p + 1) n] ∧
  objs w' =
    alter (set_i (_i p + prod shape)) self
      (alter (set_mem m') self
         (alter (set_offsets (<[name := (_i p, shape)]> (_offsets p))) self
            (objs w))) ∧
  2 * width m ≤ n ∧ prod shape ≤ n ∧ _i p + prod shape + 1 ≤ n ∧
  shape0 w' m' = shape0 w m ∧
  (shape0 w m = 1 →
     value (add self name shape) w =
       Ok (Blob (length (bufs w)) 0 (_i p) (prod shape) shape)) ∧
  (∀ r o k, r < shape0 w m → o + k ≤ _i p + 1 →
     take k (drop o ((bufs w' !!! base m') !!! r)) =
     take k (drop (off m + o) ((bufs w !!! base m) !!! r))).
Proof.
  intros p m n m' w' Hself Hres Hok Hi Hgrow.
  assert (Hn : _i p + prod shape + 1 ≤ n) by (unfold n; lia).
  assert (Hrun : add self name shape w =
    (if decide (shape0 w m * prod shape = prod shape)
     then Ok (Blob (length (bufs w)) 0 (_i p) (prod shape) shape)
     else Raise ValueError_reshape,
     World (bufs w ++ [grown w m (_i p + 1) n])
       (alter (set_i (_i p + prod shape)) self
          (alter (set_mem m') self
             (alter (set_offsets (<[name := (_i p, shape)]> (_offsets p))) self
                (objs w)))))).
  { unfold add, mbind, M_bind, obj, update; cbn. fold p.
    set (w0 := World _ _).
    assert (Hp0 : objs w0 !!! self =
                  set_offsets (<[name := (_i p, shape)]> (_offsets p)) p)
      by (unfold w0; cbn; by rewrite obj_alter_eq).
    rewrite get_blob_grow by (rewrite Hp0; cbn; fold m; lia).
    rewrite Hp0; cbn [_mem set_offsets _i]. fold m n.
    rewrite realloc_run; rewrite ?Hp0; cbn [_mem set_offsets _i allow_resize];
      fold m; try done; try lia.
    cbn [bufs objs].
    rewrite obj_alter_eq by (unfold w0; cbn; by rewrite length_alter).
    rewrite Hp0; cbn [_mem set_mem set_offsets _i].
    rewrite cols_inside by (cbn; lia). cbn.
    unfold reshape, shape0; cbn. rewrite bufs_app_new. unfold grown.
    rewrite length_fmap.
    replace (_i p + prod shape - _i p) with (prod shape) by lia.
    change (bufs w0) with (bufs w).
    by case_decide. }
  unfold w', run, value. rewrite Hrun; cbn.
  split; [done|]. split; [done|]. split; [unfold n; lia|].
  split; [unfold n; lia|]. split; [done|].
  unfold shape0; cbn. rewrite bufs_app_new. unfold grown. rewrite length_fmap.
  split; [done|]. split.
  { intros Hrows. unfold shape0 in Hrows. by rewrite Hrows, decide_True by lia. }
  intros r o k Hr Hk.
  rewrite (list_lookup_total_fmap _ (bufs w !!! base m) r Hr).
  destruct Hok as (_ & _ & Hall). rewrite Forall_forall in Hall.
  specialize (Hall ((bufs w !!! base m) !!! r)
                (list_elem_of_lookup_total_2 _ _ Hr)).
  set (row := (bufs w !!! base m) !!! r) in *.
  assert (Hlen : length (take (_i p + 1) (drop (off m) row)) = _i p + 1)
    by (rewrite length_take, length_drop; lia).
  rewrite drop_app_le by lia.
  rewrite take_app_le by (rewrite length_drop; lia).
  rewrite window_take by done. by rewrite drop_drop.
Qed.


(** ** C1 and C5 on the code: two places where [add] fails *)

(** C1: after [p = Params(ops, 16)], [p.add('W', (2,))] and
    [p.get('d_W')] the buffer has two rows, and [p.add('b', (3,))]
    raises in its final reshape: the blob it took spans both rows and
    has six cells.  The directory entry of b and the cursor have been
    changed before the raise. *)
Theorem add_on_two_rows_raises :
  let w := run (get 0 "d_W") (arena 16 "W" [5; 6]%Z empty_world) in
  let w' := run (add 0 "b" [3]) w in
  shape0 w (_mem (objs w !!! 0)) = 2 ∧
  value (add 0 "b" [3]) w = Raise ValueError_reshape ∧
  _offsets (objs w' !!! 0) !! "b" = Some (2, [3]) ∧
  _i (objs w' !!! 0) = 5.
Proof. vm_compute. done. Qed.

(** C5: on [Params(ops, 0)], a resizable arena of capacity zero,
    [add('W', (1,))] asks for one column where none is available, and
    the reallocation raises while it copies the guard column: the arena
    keeps its buffer of capacity zero and no blob is returned. *)
Theorem add_on_zero_capacity_raises :
  let w := run (__init__ 0) empty_world in
  let w' := run (add 0 "W" [1]) w in
  allow_resize (objs w !!! 0) = true ∧
  width (_mem (objs w !!! 0)) = 0 ∧
  value (add 0 "W" [1]) w = Raise ValueError_broadcast ∧
  _mem (objs w' !!! 0) = _mem (objs w !!! 0).
Proof. vm_compute. done. Qed.

(** ** The statements on the sample stores *)

Lemma three_arenas_view_ok (r : nat) :
  r < 3 → view_ok three_arenas (_mem (objs three_arenas !!! r)).
Proof.
  intros Hr. destruct r as [|[|[|r]]]; [..|lia];
    (split; [vm_compute; lia|]); (split; [vm_compute; lia|]);
    vm_compute; repeat constructor.
Qed.

Lemma get_value_frame_witness :
  run (get 1 "V") three_arenas = three_arenas.
Proof. apply (get_value_frame 1 "V" three_arenas). reflexivity. Defined.

Lemma merge_frozen_child_witness :
  merge_params 0 [2; 1] merged_once = (Raise ValueError_merge, merged_once) ∧
  InvalidArgument ValueError_merge.
Proof.
  apply (merge_frozen_child 0 [2; 1] merged_once).
  exists 1. split; [|reflexivity].
  apply elem_of_cons; right. apply elem_of_cons; by left.
Defined.

Lemma gradient_growth_witness :
  let w' := run (get 0 "d_W") three_arenas in
  shape0 w' (_mem (objs w' !!! 0)) = 2 ∧
  ∃ b', value (get 0 "W") w' = Ok (Some b') ∧ blob_data w' b' = [5; 6]%Z.
Proof.
  destruct (gradient_growth 0 "d_W" three_arenas)
    as (_ & Hobjs & Hrows & _ & Hblobs).
  - vm_compute; lia.
  - apply three_arenas_view_ok; lia.
  - reflexivity.
  - reflexivity.
  - cbv zeta. split.
    + rewrite Hobjs. exact Hrows.
    + destruct (Hblobs "W" (Blob 0 0 0 2 [2])) as (b' & Hget & _ & _ & _ & _ & Hdata);
        [reflexivity..|].
      exists b'. split; [exact Hget|]. rewrite Hdata. reflexivity.
Defined.

Lemma merge_carves_cursors_witness :
  let w' := run (merge_params 0 [1; 2]) three_arenas in
  _i (objs w' !!! 0) = 2 + (3 + 2) ∧
  _mem (objs w' !!! 1) = NdView 0 2 3 ∧ _mem (objs w' !!! 2) = NdView 0 5 2.
Proof.
  destruct (merge_carves_cursors 0 [1; 2] three_arenas
              (run (merge_params 0 [1; 2]) three_arenas))
    as (_ & Hi & _ & Hmem).
  - done.
  - vm_compute; reflexivity.
  - cbv zeta. split; [rewrite Hi; reflexivity|].
    split; [rewrite (Hmem 0 1) | rewrite (Hmem 1 2)]; reflexivity.
Defined.

(** C2 as stated fails: the regions that merge carves have the width
    of the child's cursor, without the guard column, and the parent's
    cursor advances by the cursors only. *)
Lemma merge_carves_committed_counterexample :
  ¬ (∀ self others w w',
       others ≠ [] →
       Forall (λ r, allow_resize (objs w !!! r) = true) others →
       merge_params self others w = (Ok tt, w') →
       _i (objs w' !!! self) = _i (objs w !!! self) + committed w others ∧
       ∀ r, r ∈ others →
         width (_mem (objs w' !!! r)) = _i (objs w !!! r) + 1).
Proof.
  intros H.
  destruct (H 0 [1; 2] three_arenas (run (merge_params 0 [1; 2]) three_arenas))
    as [Hi _].
  - done.
  - repeat constructor.
  - vm_compute; reflexivity.
  - vm_compute in Hi. discriminate Hi.
Qed.

Lemma merge_carving_never_grows_witness :
  length (bufs (run (merge_params 0 [1; 2]) three_arenas)) ≤ 4 ∧
  ∀ e, value (merge_params 0 [1; 2]) three_arenas = Raise e → ¬ NotResizable e.
Proof.
  destruct (merge_carving_never_grows 0 [1; 2] three_arenas) as (He & Hlen & _);
    [| | |split; [exact Hlen|exact He]].
  - intros Hin. apply elem_of_cons in Hin as [?|Hin]; [done|].
    apply elem_of_cons in Hin as [?|Hin]; [done|]. by apply elem_of_nil in Hin.
  - repeat constructor.
  - left. reflexivity.
Defined.

(** C10 as stated fails: a parent that an earlier merge has frozen and
    that is too small for the next child raises NotResizable in the
    upfront sizing, although the child is resizable. *)
Lemma merge_frozen_parent_counterexample :
  ¬ (∀ self others w e,
       Forall (λ r, allow_resize (objs w !!! r) = true) others →
       value (merge_params self others) w = Raise e → ¬ NotResizable e).
Proof.
  intros H. apply (H 0 [2] merged_once ValueError_realloc).
  - repeat constructor.
  - reflexivity.
  - reflexivity.
Qed.

Lemma frozen_buffer_identity_witness :
  _mem (objs (exec (Add 1 "X" [2]) merged_once) !!! 1) = NdView 0 0 3 ∧
  allow_resize (objs (exec (Add 1 "X" [2]) merged_once) !!! 1) = false.
Proof.
  apply (frozen_buffer_identity 1 (Add 1 "X" [2]) merged_once).
  - reflexivity.
  - intros H. exact H.
Defined.

(** C3 as stated fails: a child that a merge has frozen on a one-row
    region of the parent's buffer moves to a fresh two-row buffer at
    its first [get] of a gradient-prefixed name. *)
Lemma frozen_gradient_get_counterexample :
  ¬ (∀ a o w,
       allow_resize (objs w !!! a) = false →
       base (_mem (objs (exec o w) !!! a)) = base (_mem (objs w !!! a))).
Proof.
  intros H.
  specialize (H 1 (Get 1 "d_V") (run (merge_params 0 [1; 2]) three_arenas)).
  vm_compute in H. specialize (H eq_refl). discriminate H.
Qed.

Lemma merge_two_children_witness :
  let w' := run (merge_params 0 [1; 2]) three_arenas in
  allow_resize (objs w' !!! 0) = false ∧
  allow_resize (objs w' !!! 1) = false ∧
  allow_resize (objs w' !!! 2) = false ∧
  ∃ b', value (get 1 "V") w' = Ok (Some b') ∧
        blob_shape b' = [3] ∧ blob_data w' b' = [1; 2; 3]%Z.
Proof.
  destruct (merge_two_children 0 1 2 three_arenas
              (run (merge_params 0 [1; 2]) three_arenas)) as [Hp Hc].
  - vm_compute; reflexivity.
  - apply three_arenas_view_ok; lia.
  - vm_compute; lia.
  - split; [apply three_arenas_view_ok; lia|]. split; vm_compute; [lia|discriminate].
  - split; [apply three_arenas_view_ok; lia|]. split; vm_compute; [lia|discriminate].
  - cbv zeta. split; [exact Hp|].
    destruct (Hc 1) as (_ & HA & _ & _ & _ & _ & Hblobs);
      [apply elem_of_cons; by left|].
    destruct (Hc 2) as (_ & HB & _); [apply elem_of_cons; right; apply elem_of_cons; by left|].
    split; [exact HA|]. split; [exact HB|].
    destruct (Hblobs "V" 0 [3]) as (b & b' & Hb & Hb' & _ & Hs & Hd & _);
      [reflexivity | reflexivity | vm_compute; lia |].
    exists b'. split; [exact Hb'|]. split; [exact Hs|].
    rewrite Hd. vm_compute in Hb. injection Hb as <-. vm_compute; reflexivity.
Defined.

(** * Further properties of the arena *)

(** ** What [get] never does *)

Lemma alloc_gradients_cases (self : nat) (w : world) :
  ∃ new : list (list Z),
    (∃ e, _alloc_gradients self w = (Raise e, World (bufs w ++ [new]) (objs w))) ∨
    _alloc_gradients self w =
      (Ok tt, World (bufs w ++ [new])
                (alter (set_mem (NdView (length (bufs w)) 0
                                   (width (_mem (objs w !!! self))))) self (objs w))).
Proof.
  unfold _alloc_gradients, mbind, M_bind, obj, allocate, row0, assign_row0, update; cbn.
  destruct (view_data _ _) as [|r rs]; [eexists; left; eauto|].
  cbn. unfold shape0; cbn. rewrite bufs_app_new; cbn.
  destruct (stretch _ r) as [xs|]; cbn; [|eexists; left; eauto].
  rewrite alter_app_new. eexists; right; reflexivity.
Qed.

(** X1: whatever its outcome, [get] keeps the directory, the cursor
    and the flag of every arena, leaves every arena but its own
    untouched, changes no cell of an existing buffer and appends at
    most one buffer to the store; when the buffer of its arena does
    not have exactly one row it changes nothing at all. *)
Theorem get_frame (self : nat) (name : string) (w : world) :
  let w' := run (get self name) w in
  length (objs w') = length (objs w) ∧
  (∀ r, _offsets (objs w' !!! r) = _offsets (objs w !!! r) ∧
        _i (objs w' !!! r) = _i (objs w !!! r) ∧
        allow_resize (objs w' !!! r) = allow_resize (objs w !!! r)) ∧
  (∀ r, r ≠ self → objs w' !!! r = objs w !!! r) ∧
  (bufs w' = bufs w ∨ ∃ new, bufs w' = bufs w ++ [new]) ∧
  (shape0 w (_mem (objs w !!! self)) ≠ 1 → w' = w).
Proof.
  assert (Hsame : ∀ w0 : world,
    length (objs w0) = length (objs w0) ∧
    (∀ r, _offsets (objs w0 !!! r) = _offsets (objs w0 !!! r) ∧
          _i (objs w0 !!! r) = _i (objs w0 !!! r) ∧
          allow_resize (objs w0 !!! r) = allow_resize (objs w0 !!! r)) ∧
    (∀ r, r ≠ self → objs w0 !!! r = objs w0 !!! r) ∧
    (bufs w0 = bufs w0 ∨ ∃ new, bufs w0 = bufs w0 ++ [new]) ∧
    (shape0 w (_mem (objs w !!! self)) ≠ 1 → w0 = w0)) by (intros; auto 10).
  cbv zeta. unfold run.
  destruct (gradient_of name) as [bn|] eqn:Hg.
  2:{ unfold get. rewrite Hg, get_at_run. apply Hsame. }
  rewrite (get_gradient_run _ _ _ _ Hg).
  case_decide; [|rewrite get_at_run; apply Hsame].
  destruct (alloc_gradients_cases self w) as (new & [[e He]|He]); rewrite He; cbn.
  - refine (conj _ (conj _ (conj _ (conj _ _)))); [done|auto|auto| |done].
    right. by exists new.
  - rewrite get_at_run; cbn. rewrite length_alter.
    split; [done|]. split.
    + intros r. rewrite list_lookup_total_alter.
      case_decide as Hd; [destruct Hd as [-> _]|]; done.
    + split; [intros r Hr; by rewrite obj_alter_ne|]. split; [|done].
      right. by exists new.
Qed.

(** ** What [add] always does *)

Lemma realloc_appends (self n : nat) (w : world) :
  ∃ k, length k ≤ 1 ∧ bufs (run (_realloc self n) w) = bufs w ++ k ∧
    length (objs (run (_realloc self n) w)) = length (objs w) ∧
    (∀ r, _offsets (objs (run (_realloc self n) w) !!! r) = _offsets (objs w !!! r) ∧
          _i (objs (run (_realloc self n) w) !!! r) = _i (objs w !!! r) ∧
          allow_resize (objs (run (_realloc self n) w) !!! r)
            = allow_resize (objs w !!! r)) ∧
    (∀ r, r ≠ self → objs (run (_realloc self n) w) !!! r = objs w !!! r).
Proof.
  unfold run, _realloc, mbind, M_bind, obj; cbn.
  destruct (allow_resize (objs w !!! self)); cbn.
  2:{ exists []. rewrite app_nil_r. auto 10. }
  unfold assign; cbn. destruct (broadcast _ _ _) as [m|]; cbn.
  - unfold store, cols at 1 2; cbn. rewrite alter_app_new.
    eexists [_]. rewrite length_alter.
    refine (conj _ (conj eq_refl (conj eq_refl (conj _ _)))); [cbn; lia| |].
    + intros r. rewrite list_lookup_total_alter.
      case_decide as Hd; [destruct Hd as [-> _]|]; done.
    + intros r Hr. by rewrite obj_alter_ne.
  - eexists [_]. refine (conj _ (conj eq_refl _)); [cbn; lia|]. auto.
Qed.

Lemma get_blob_frame (self n : nat) (w : world) :
  let w' := run (_get_blob self n) w in
  self < length (objs w) →
  (∀ r, _offsets (objs w' !!! r) = _offsets (objs w !!! r) ∧
        allow_resize (objs w' !!! r) = allow_resize (objs w !!! r)) ∧
  (_i (objs w' !!! self) = _i (objs w !!! self) ∨
   _i (objs w' !!! self) = _i (objs w !!! self) + n) ∧
  length (objs w') = length (objs w) ∧
  (∀ r, r ≠ self → objs w' !!! r = objs w !!! r) ∧
  ∃ k, length k ≤ 1 ∧ bufs w' = bufs w ++ k.
Proof.
  intros w' Hself. subst w'.
  unfold run, _get_blob, mbind, M_bind, obj, when_, update.
  destruct (_ <? _)%Z.
  - pose proof (realloc_appends self
                  (width (_mem (objs w !!! self)) `max` n * 2) w)
      as (k & Hk & Hb & Hl & Hobj & Hfr).
    unfold run in Hb, Hl, Hobj, Hfr.
    destruct (_realloc self _ w) as [[[]|e] w1]; cbn [fst snd] in *.
    + unfold mret, M_ret. cbn [fst snd bufs objs].
      rewrite length_alter, obj_alter_eq by lia.
      destruct (Hobj self) as (Ho & Hi & Ha).
      refine (conj _ (conj _ (conj Hl (conj _ _)))).
      * intros r. rewrite list_lookup_total_alter. destruct (Hobj r) as (? & ? & ?).
        case_decide as Hd; [destruct Hd as [-> _]|]; done.
      * right. cbn. by rewrite Hi.
      * intros r Hr. rewrite obj_alter_ne by done. by apply Hfr.
      * by exists k.
    + destruct (Hobj self) as (Ho & Hi & Ha).
      refine (conj _ (conj _ (conj Hl (conj Hfr _)))).
      * intros r. by destruct (Hobj r) as (? & ? & ?).
      * by left.
      * by exists k.
  - unfold mret, M_ret. cbn [fst snd bufs objs].
    rewrite length_alter, obj_alter_eq by lia.
    refine (conj _ (conj _ (conj eq_refl (conj _ _)))).
    + intros r. rewrite list_lookup_total_alter.
      case_decide as Hd; [destruct Hd as [-> _]|]; done.
    + by right.
    + intros r Hr. by rewrite obj_alter_ne.
    + exists []. split; [cbn; lia|by rewrite app_nil_r].
Qed.

Lemma add_run_world (self : nat) (name : string) (shape : list nat) (w : world) :
  run (add self name shape) w =
  run (_get_blob self (prod shape))
    (World (bufs w)
       (alter (set_offsets (<[name := (_i (objs w !!! self), shape)]>
                              (_offsets (objs w !!! self)))) self (objs w))).
Proof.
  unfold run, add, mbind, M_bind, obj, update; cbn.
  destruct (_get_blob _ _ _) as [[b|e] w1]; [|done].
  unfold reshape. by case_decide.
Qed.

(** X2: whatever its outcome, [add] has recorded the entry
    [(cursor, shape)] under [name] in the directory of its arena; it
    keeps the flag, leaves the cursor or advances it by [prod shape],
    touches no other arena, and changes no cell of an existing buffer:
    at most one buffer is appended to the store. *)
Theorem add_frame (self : nat) (name : string) (shape : list nat) (w : world) :
  let p := objs w !!! self in
  let w' := run (add self name shape) w in
  let p' := objs w' !!! self in
  self < length (objs w) →
  _offsets p' = <[name := (_i p, shape)]> (_offsets p) ∧
  allow_resize p' = allow_resize p ∧
  (_i p' = _i p ∨ _i p' = _i p + prod shape) ∧
  length (objs w') = length (objs w) ∧
  (∀ r, r ≠ self → objs w' !!! r = objs w !!! r) ∧
  ∃ k, length k ≤ 1 ∧ bufs w' = bufs w ++ k.
Proof.
  intros p w' p' Hself. subst w' p'. rewrite add_run_world. fold p.
  set (w0 := World _ _).
  assert (Hp0 : objs w0 !!! self =
                set_offsets (<[name := (_i p, shape)]> (_offsets p)) p)
    by (unfold w0; cbn; by rewrite obj_alter_eq).
  assert (Hl0 : length (objs w0) = length (objs w))
    by (unfold w0; cbn; by rewrite length_alter).
  destruct (get_blob_frame self (prod shape) w0) as (Hobj & Hi & Hl & Hfr & Hk);
    [lia|].
  destruct (Hobj self) as [Ho Ha]. rewrite Hp0 in Ho, Ha, Hi. cbn in Ho, Ha, Hi.
  refine (conj Ho (conj Ha (conj Hi (conj _ (conj _ Hk))))); [lia|].
  intros r Hr. rewrite Hfr by done. unfold w0; cbn. by rewrite obj_alter_ne.
Qed.

(** ** [add] on a frozen arena *)

Lemma add_frozen_run (self : nat) (name : string) (shape : list nat) (w : world) :
  let p := objs w !!! self in
  allow_resize p = false →
  width (_mem p) < _i p + prod shape + 1 →
  add self name shape w =
    (Raise ValueError_realloc,
     World (bufs w)
       (alter (set_offsets (<[name := (_i p, shape)]> (_offsets p))) self (objs w))).
Proof.
  intros p Hfrozen Hfull. unfold add, mbind, M_bind, obj, update; cbn. fold p.
  set (w0 := World _ _).
  assert (Hp0 : _mem (objs w0 !!! self) = _mem p ∧ _i (objs w0 !!! self) = _i p ∧
                allow_resize (objs w0 !!! self) = false).
  { unfold w0; cbn. rewrite list_lookup_total_alter.
    case_decide; cbn; by fold p. }
  destruct Hp0 as (Hm0 & Hi0 & Ha0).
  rewrite get_blob_grow by (rewrite Hm0, Hi0; lia).
  by rewrite realloc_frozen.
Qed.

(** X3: on a frozen arena without room for the request and the guard
    column, [add] raises NotResizable; buffers, cursor and buffer view
    are as before, but the directory entry of the name has been
    written. *)
Theorem add_on_frozen_full (self : nat) (name : string) (shape : list nat)
    (w : world) :
  let p := objs w !!! self in
  allow_resize p = false →
  width (_mem p) < _i p + prod shape + 1 →
  ∃ e, NotResizable e ∧
    add self name shape w =
      (Raise e,
       World (bufs w)
         (alter (set_offsets (<[name := (_i p, shape)]> (_offsets p))) self
            (objs w))).
Proof.
  intros p Hfrozen Hfull. exists ValueError_realloc. split; [done|].
  by apply add_frozen_run.
Qed.

(** X4: after a merge that returns, every [add] on a child raises
    NotResizable, whatever the shape (an empty one included): the
    region the child was given has exactly cursor columns, none for the
    guard column. *)
Theorem add_on_merged_child (self : nat) (others : list nat) (w w' : world)
    (r : nat) (name : string) (shape : list nat) :
  merge_params self others w = (Ok tt, w') →
  r ∈ others →
  ∃ e, NotResizable e ∧ value (add r name shape) w' = Raise e ∧
       bufs (run (add r name shape) w') = bufs w'.
Proof.
  intros Hrun Hr.
  assert (Hne : others ≠ []) by (intros ->; by apply elem_of_nil in Hr).
  destruct (merge_params_ok _ _ _ _ Hne Hrun)
    as (m0 & _ & _ & _ & _ & _ & _ & _ & Hch & _).
  apply list_elem_of_lookup_1 in Hr as [i Hi]. specialize (Hch i r Hi).
  exists ValueError_realloc. split; [done|].
  unfold value, run. rewrite add_frozen_run; [done|by rewrite Hch|].
  rewrite Hch; cbn. lia.
Qed.

(** ** [add] on a well-formed arena *)

Lemma add_grow_run (self : nat) (name : string) (shape : list nat) (w : world) :
  let p := objs w !!! self in
  let m := _mem p in
  let n := width m `max` prod shape * 2 in
  self < length (objs w) →
  allow_resize p = true →
  view_ok w m →
  _i p + 1 ≤ width m →
  width m < _i p + prod shape + 1 →
  add self name shape w =
    (if decide (shape0 w m * prod shape = prod shape)
     then Ok (Blob (length (bufs w)) 0 (_i p) (prod shape) shape)
     else Raise ValueError_reshape,
     World (bufs w ++ [grown w m (_i p + 1) n])
       (alter (set_i (_i p + prod shape)) self
          (alter (set_mem (NdView (length (bufs w)) 0 n)) self
             (alter (set_offsets (<[name := (_i p, shape)]> (_offsets p))) self
                (objs w))))).
Proof.
  intros p m n Hself Hres Hok Hi Hgrow.
  assert (Hn : _i p + prod shape + 1 ≤ n) by (unfold n; lia).
  unfold add, mbind, M_bind, obj, update; cbn. fold p.
  set (w0 := World _ _).
  assert (Hp0 : objs w0 !!! self =
                set_offsets (<[name := (_i p, shape)]> (_offsets p)) p)
    by (unfold w0; cbn; by rewrite obj_alter_eq).
  rewrite get_blob_grow by (rewrite Hp0; cbn; fold m; lia).
  rewrite Hp0; cbn [_mem set_offsets _i]. fold m n.
  rewrite realloc_run; rewrite ?Hp0; cbn [_mem set_offsets _i allow_resize];
    fold m; try done; try lia.
  cbn [bufs objs].
  rewrite obj_alter_eq by (unfold w0; cbn; by rewrite length_alter).
  rewrite Hp0; cbn [_mem set_mem set_offsets _i].
  rewrite cols_inside by (cbn; lia). cbn.
  unfold reshape, shape0; cbn. rewrite bufs_app_new. unfold grown.
  rewrite length_fmap.
  replace (_i p + prod shape - _i p) with (prod shape) by lia.
  change (bufs w0) with (bufs w).
  by case_decide.
Qed.

Lemma grown_cells (w : world) (m : ndview) (c n r o k : nat) :
  view_ok w m → c ≤ width m →
  r < shape0 w m → o + k ≤ c →
  take k (drop o (grown w m c n !!! r)) =
  take k (drop (off m + o) ((bufs w !!! base m) !!! r)).
Proof.
  intros (_ & _ & Hall) Hc Hr Hk. unfold grown.
  rewrite (list_lookup_total_fmap _ (bufs w !!! base m) r Hr).
  rewrite Forall_forall in Hall.
  specialize (Hall ((bufs w !!! base m) !!! r)
                (list_elem_of_lookup_total_2 _ _ Hr)).
  set (row := (bufs w !!! base m) !!! r) in *.
  assert (Hlen : length (take c (drop (off m) row)) = c)
    by (rewrite length_take, length_drop; lia).
  rewrite drop_app_le by lia.
  rewrite take_app_le by (rewrite length_drop; lia).
  rewrite window_take by done. by rewrite drop_drop.
Qed.

Lemma add_run (self : nat) (name : string) (shape : list nat) (w : world) :
  let p := objs w !!! self in
  let m := _mem p in
  let n := prod shape in
  let w' := run (add self name shape) w in
  let p' := objs w' !!! self in
  self < length (objs w) →
  view_ok w m → _i p + 1 ≤ width m →
  allow_resize p = true ∨ _i p + n + 1 ≤ width m →
  _offsets p' = <[name := (_i p, shape)]> (_offsets p) ∧
  _i p' = _i p + n ∧
  allow_resize p' = allow_resize p ∧
  view_ok w' (_mem p') ∧
  _i p + n + 1 ≤ width (_mem p') ∧
  shape0 w' (_mem p') = shape0 w m ∧
  value (add self name shape) w =
    (if decide (shape0 w m * n = n)
     then Ok (Blob (base (_mem p')) 0 (off (_mem p') + _i p) n shape)
     else Raise ValueError_reshape) ∧
  (∀ r o k, r < shape0 w m → o + k ≤ _i p + 1 →
     take k (drop (off (_mem p') + o) ((bufs w' !!! base (_mem p')) !!! r)) =
     take k (drop (off m + o) ((bufs w !!! base m) !!! r))) ∧
  (_i p + n + 1 ≤ width m → bufs w' = bufs w ∧ _mem p' = m) ∧
  (width m < _i p + n + 1 →
     bufs w' = bufs w ++ [grown w m (_i p + 1) (width m `max` n * 2)] ∧
     _mem p' = NdView (length (bufs w)) 0 (width m `max` n * 2)).
Proof.
  intros p m n w' p' Hself Hok Hi Hroom. subst w' p'. unfold value, run.
  destruct (decide (_i p + n + 1 ≤ width m)) as [Hfit|Hfull].
  - rewrite add_fit by done. fold p m n. cbn [fst snd objs bufs].
    rewrite !obj_alter_eq by (by rewrite ?length_alter). cbn.
    split; [done|]. split; [done|]. split; [done|]. split; [exact Hok|].
    split; [unfold n, m, p in *; lia|]. split; [done|]. split; [done|].
    split; [done|]. split; [done|]. intros; lia.
  - destruct Hroom as [Hres|?]; [|lia].
    rewrite add_grow_run by (done || fold p m n; lia). fold p m n.
    cbn [fst snd objs bufs].
    rewrite !obj_alter_eq by (by rewrite ?length_alter). cbn.
    pose proof Hok as (Hb & Hrows & _).
    split; [done|]. split; [done|]. split; [done|].
    split; [apply view_ok_grown; [done|lia..]|].
    split; [lia|]. unfold shape0; cbn. rewrite bufs_app_new.
    split; [unfold grown; by rewrite length_fmap|].
    split; [done|].
    split; [intros r o k Hr Hk; by apply grown_cells|].
    split; [lia|done].
Qed.

Lemma blob_store_shape0 (b : blob) (xs : list Z) (w : world) (v : ndview) :
  shape0 (blob_store b xs w) v = shape0 w v.
Proof.
  unfold shape0, blob_store; cbn. rewrite list_lookup_total_alter.
  case_decide as Hd; [|done]. destruct Hd as [-> _]. by rewrite length_alter.
Qed.

Lemma blob_store_other (b b2 : blob) (xs : list Z) (w : world) :
  blob_base b2 = blob_base b → blob_row b2 = blob_row b →
  blob_base b < length (bufs w) →
  blob_row b < length (bufs w !!! blob_base b) →
  blob_off b + length xs ≤ length ((bufs w !!! blob_base b) !!! blob_row b) →
  blob_off b2 + blob_len b2 ≤ blob_off b ∨ blob_off b + length xs ≤ blob_off b2 →
  blob_data (blob_store b xs w) b2 = blob_data w b2.
Proof.
  intros E1 E2 Hb Hr Hlen Hdis. unfold blob_data, blob_store; cbn.
  rewrite E1, E2, !list_lookup_total_alter_eq by done.
  destruct Hdis as [Hbefore|Hafter].
  - apply splice_before; lia.
  - by rewrite splice_after.
Qed.

(** X5: [add] keeps an arena well formed.  When the buffer view of the
    arena is in bounds, the guard column lies inside it and every
    directory entry ends at or before the cursor, the same holds after
    an [add] that may grow (the arena is resizable) or needs no growth,
    and the number of rows is unchanged. *)
Theorem add_keeps_arena_ok (self : nat) (name : string) (shape : list nat)
    (w : world) :
  let p := objs w !!! self in
  let w' := run (add self name shape) w in
  self < length (objs w) →
  arena_ok w self →
  allow_resize p = true ∨ _i p + prod shape + 1 ≤ width (_mem p) →
  arena_ok w' self ∧
  shape0 w' (_mem (objs w' !!! self)) = shape0 w (_mem p) ∧
  allow_resize (objs w' !!! self) = allow_resize p.
Proof.
  intros p w' Hself (Hok & Hi & Hdir) Hroom. subst p w'.
  destruct (add_run self name shape w Hself Hok Hi Hroom)
    as (Ho & Hi' & Ha & Hok' & Hw' & Hrows & _).
  split; [|by split].
  split; [done|]. split; [lia|].
  intros name' o s. rewrite Ho, Hi'.
  destruct (decide (name' = name)) as [->|Hne].
  - rewrite lookup_insert_eq. intros [= <- <-]. lia.
  - rewrite lookup_insert_ne by done. intros H. specialize (Hdir _ _ _ H).
    lia.
Qed.

(** X6: on a well-formed arena of one row, [add] under a name without
    the gradient prefix returns a blob of [prod shape] cells of row 0
    with the given shape; [get] of the name then returns the same blob,
    and what is written through it is what is read through it. *)
Theorem add_get_round_trip (self : nat) (name : string) (shape : list nat)
    (w : world) :
  let p := objs w !!! self in
  let w' := run (add self name shape) w in
  self < length (objs w) →
  arena_ok w self →
  shape0 w (_mem p) = 1 →
  allow_resize p = true ∨ _i p + prod shape + 1 ≤ width (_mem p) →
  String.prefix "d_" name = false →
  ∃ b, value (add self name shape) w = Ok b ∧
       blob_row b = 0 ∧ blob_len b = prod shape ∧ blob_shape b = shape ∧
       value (get self name) w' = Ok (Some b) ∧
       ∀ xs, length xs = prod shape →
         value (get self name) (blob_store b xs w') = Ok (Some b) ∧
         blob_data (blob_store b xs w') b = xs.
Proof.
  intros p w' Hself (Hok & Hi & Hdir) Hone Hroom Hpre. subst p w'.
  destruct (add_run self name shape w Hself Hok Hi Hroom)
    as (Ho & Hi' & Ha & Hok' & Hw' & Hrows & Hval & _).
  rewrite Hone, decide_True in Hval by lia.
  eexists. split; [exact Hval|]. cbn [blob_row blob_len blob_shape].
  split; [done|]. split; [done|]. split; [done|].
  pose proof Hok' as (Hb' & Hr' & Hall').
  destruct (view_ok_row0 _ _ Hok') as (rest & _ & Hlen').
  split.
  { rewrite (get_in_bounds self name (_i (objs w !!! self)) shape
               (run (add self name shape) w)); try done.
    - by rewrite Ho, lookup_insert_eq.
    - lia. }
  intros xs Hxs. split.
  - rewrite (get_in_bounds self name (_i (objs w !!! self)) shape
               (blob_store _ xs (run (add self name shape) w))); try done.
    + cbn. by rewrite Ho, lookup_insert_eq.
    + cbn. lia.
    + rewrite blob_store_shape0. cbn. exact Hr'.
  - apply blob_store_read; cbn; try done; lia.
Qed.

(** X7: [add] keeps the earlier blobs.  On a well-formed arena, for
    every other name without the gradient prefix that the directory
    holds, [get] returns a view before and after the [add], with the
    same shape and the same content, whether the [add] has moved the
    arena to a larger buffer or not. *)
Theorem add_preserves_blobs (self : nat) (name : string) (shape : list nat)
    (w : world) (name' : string) (o : nat) (s : list nat) :
  let p := objs w !!! self in
  let w' := run (add self name shape) w in
  self < length (objs w) →
  arena_ok w self →
  allow_resize p = true ∨ _i p + prod shape + 1 ≤ width (_mem p) →
  name' ≠ name → String.prefix "d_" name' = false →
  _offsets p !! name' = Some (o, s) →
  ∃ b b', value (get self name') w = Ok (Some b) ∧
          value (get self name') w' = Ok (Some b') ∧
          blob_shape b = s ∧ blob_shape b' = s ∧
          blob_data w' b' = blob_data w b.
Proof.
  intros p w' Hself (Hok & Hi & Hdir) Hroom Hne Hpre Hent. subst p w'.
  destruct (add_run self name shape w Hself Hok Hi Hroom)
    as (Ho & Hi' & Ha & Hok' & Hw' & Hrows & _ & Hcells & _).
  pose proof (Hdir _ _ _ Hent) as Hin.
  pose proof Hok as (_ & Hr & _). pose proof Hok' as (_ & Hr' & _).
  eexists _, _.
  split; [apply get_in_bounds; try done; lia|].
  split; [apply get_in_bounds; try done;
          [by rewrite Ho, lookup_insert_ne|lia]|].
  split; [done|]. split; [done|].
  unfold blob_data; cbn. apply Hcells; [done|lia].
Qed.

(** X8: the blob that [add] returns shares no cell with an earlier
    blob.  On a well-formed arena of one row, a write through the new
    blob leaves the content of every earlier value blob as it was, and
    a write through an earlier blob leaves the new blob as it was. *)
Theorem add_blob_disjoint (self : nat) (name : string) (shape : list nat)
    (w : world) (name' : string) (o : nat) (s : list nat) :
  let p := objs w !!! self in
  let w' := run (add self name shape) w in
  self < length (objs w) →
  arena_ok w self →
  shape0 w (_mem p) = 1 →
  allow_resize p = true ∨ _i p + prod shape + 1 ≤ width (_mem p) →
  name' ≠ name → String.prefix "d_" name' = false →
  _offsets p !! name' = Some (o, s) →
  ∃ b b', value (add self name shape) w = Ok b ∧
          value (get self name') w' = Ok (Some b') ∧
          (∀ xs, length xs = prod shape →
             blob_data (blob_store b xs w') b' = blob_data w' b') ∧
          (∀ ys, length ys = prod s →
             blob_data (blob_store b' ys w') b = blob_data w' b).
Proof.
  intros p w' Hself (Hok & Hi & Hdir) Hone Hroom Hne Hpre Hent. subst p w'.
  destruct (add_run self name shape w Hself Hok Hi Hroom)
    as (Ho & Hi' & Ha & Hok' & Hw' & Hrows & Hval & _).
  rewrite Hone, decide_True in Hval by lia.
  pose proof (Hdir _ _ _ Hent) as Hin.
  pose proof Hok' as (Hb' & Hr' & _).
  destruct (view_ok_row0 _ _ Hok') as (rest & _ & Hlen').
  eexists _, _. split; [exact Hval|].
  split; [apply get_in_bounds; try done;
          [by rewrite Ho, lookup_insert_ne|lia]|].
  split.
  - intros xs Hxs. apply blob_store_other; cbn; try done; try lia.
  - intros ys Hys. apply blob_store_other; cbn; try done; try lia.
Qed.

(** ** Gradient views *)

Lemma substring_all (s : string) : String.substring 0 (String.length s) s = s.
Proof. induction s as [|c s IH]; cbn; [done|by rewrite IH]. Qed.

Lemma gradient_of_append (n : string) : gradient_of (String.append "d_" n) = Some n.
Proof.
  unfold gradient_of. cbv beta iota delta [String.append]. cbn.
  assert (String.prefix "" n = true) as -> by (by destruct n).
  by rewrite Nat.sub_0_r, substring_all.
Qed.

(** X9: the first gradient view is zero.  On an in-bounds arena of one
    row, [get] of ["d_" ++ n] for a name [n] recorded within the width
    of the buffer returns a view of row 1 of the new buffer, at the
    offset and with the shape recorded for [n], and all its cells are
    zero. *)
Theorem first_gradient_view_zero (self : nat) (n : string) (o : nat)
    (s : list nat) (w : world) :
  let p := objs w !!! self in
  let w' := run (get self (String.append "d_" n)) w in
  self < length (objs w) →
  view_ok w (_mem p) →
  shape0 w (_mem p) = 1 →
  _offsets p !! n = Some (o, s) →
  o + prod s ≤ width (_mem p) →
  ∃ b, value (get self (String.append "d_" n)) w = Ok (Some b) ∧
       blob_base b = length (bufs w) ∧ blob_row b = 1 ∧ blob_off b = o ∧
       blob_len b = prod s ∧ blob_shape b = s ∧
       blob_data w' b = replicate (prod s) 0%Z.
Proof.
  intros p w' Hself Hok Hone Hent Hin. subst w'. unfold value, run.
  rewrite (get_gradient_run _ _ _ _ (gradient_of_append n)).
  fold p. rewrite decide_True by done.
  rewrite alloc_gradients_run by done. fold p.
  rewrite get_at_run. cbn [objs bufs fst snd].
  rewrite obj_alter_eq by done. fold p. cbn [_offsets set_mem _mem].
  rewrite Hent. cbv zeta. unfold shape0. cbn [bufs base].
  rewrite bufs_app_new. cbn [length].
  rewrite decide_False by lia.
  rewrite cols_inside by (cbn; lia). cbn [width base off].
  rewrite decide_True by lia. cbn [fst snd].
  eexists. split; [reflexivity|]. cbn [blob_base blob_row blob_off blob_len blob_shape].
  replace (o + prod s - o) with (prod s) by lia.
  rewrite Nat.min_l by lia.
  repeat split; try done.
  unfold blob_data. cbn [blob_base blob_row blob_off blob_len bufs].
  rewrite bufs_app_new. cbn.
  rewrite drop_replicate, take_replicate. f_equal. lia.
Qed.

(** X10: once the buffer has two rows, the value view and the gradient
    view of a name are the same columns of rows 0 and 1.  For a name
    [n] without the gradient prefix recorded within the width of an
    in-bounds buffer of two rows, [get n] and [get ("d_" ++ n)] return
    views with the same shape, offset and length on rows 0 and 1 of the
    same buffer, neither call changes the store, and a write through
    one of the two views leaves the content of the other as it was. *)
Theorem gradient_view_parallel (self : nat) (n : string) (o : nat)
    (s : list nat) (w : world) :
  let p := objs w !!! self in
  let m := _mem p in
  let bv := Blob (base m) 0 (off m + o) (prod s) s in
  let bg := Blob (base m) 1 (off m + o) (prod s) s in
  view_ok w m →
  shape0 w m = 2 →
  String.prefix "d_" n = false →
  _offsets p !! n = Some (o, s) →
  o + prod s ≤ width m →
  get self n w = (Ok (Some bv), w) ∧
  get self (String.append "d_" n) w = (Ok (Some bg), w) ∧
  ∀ xs, length xs = prod s →
    blob_data (blob_store bg xs w) bv = blob_data w bv ∧
    blob_data (blob_store bv xs w) bg = blob_data w bg ∧
    blob_data (blob_store bg xs w) bg = xs.
Proof.
  intros p m bv bg Hok Htwo Hpre Hent Hin.
  pose proof Hok as (Hb & _ & Hall).
  assert (Hget : ∀ col, col < 2 →
            get_at self n col w =
              (Ok (Some (Blob (base m) col (off m + o) (prod s) s)), w)).
  { intros col Hcol. rewrite get_at_run. fold p. rewrite Hent. cbv zeta. fold m.
    rewrite decide_False by lia. rewrite cols_inside by lia. cbn [width base off].
    rewrite decide_True by lia. rewrite Nat.min_l by lia.
    by replace (o + prod s - o) with (prod s) by lia. }
  split. { unfold get, gradient_of. rewrite Hpre. apply Hget. lia. }
  split. { rewrite (get_gradient_run _ _ _ _ (gradient_of_append n)).
           fold p m. rewrite decide_False by lia. apply Hget. lia. }
  intros xs Hxs. unfold shape0 in Htwo.
  assert (Hrow1 : off m + o + length xs ≤ length ((bufs w !!! base m) !!! 1)).
  { rewrite Forall_forall in Hall.
    specialize (Hall ((bufs w !!! base m) !!! 1)).
    rewrite Hxs. etrans; [|apply Hall]; [lia|].
    apply list_elem_of_lookup_total_2. lia. }
  split; [|split].
  - unfold blob_data, blob_store, bv, bg; cbn.
    rewrite list_lookup_total_alter_eq by done.
    by rewrite list_lookup_total_alter_ne by done.
  - unfold blob_data, blob_store, bv, bg; cbn.
    rewrite list_lookup_total_alter_eq by done.
    by rewrite list_lookup_total_alter_ne by done.
  - apply blob_store_read; unfold bg; cbn; try done; lia.
Qed.

(** ** A new arena *)

(** X11: a new arena of positive capacity hands out zero blobs.  For
    every [size > 0], name without the gradient prefix and shape,
    [p = Params(ops, size)] followed by [p.add(name, shape)] returns a
    blob with that shape whose cells are all zero, growing the buffer
    when the shape asks for it, and [p.get(name)] returns this blob. *)
Theorem init_add_get (size : Z) (name : string) (shape : list nat) (w : world) :
  let a := length (objs w) in
  let w1 := run (__init__ size) w in
  let w2 := run (add a name shape) w1 in
  (0 < size)%Z →
  String.prefix "d_" name = false →
  value (__init__ size) w = Ok a ∧
  ∃ b, value (add a name shape) w1 = Ok b ∧
       blob_shape b = shape ∧ blob_len b = prod shape ∧
       value (get a name) w2 = Ok (Some b) ∧
       blob_data w2 b = replicate (prod shape) 0%Z.
Proof.
  intros a w1 w2 Hsize Hpre.
  assert (Hinit : __init__ size w =
            (Ok a, World (bufs w ++ [[replicate (Z.to_nat size) 0%Z]])
                     (objs w ++ [MkParams (NdView (length (bufs w)) 0 (Z.to_nat size))
                                   ∅ 0 true]))).
  { unfold __init__. destruct (Z.ltb_spec size 0) as [?|_]; [lia|]. done. }
  split; [unfold value; by rewrite Hinit|].
  assert (Hw1 : w1 = World (bufs w ++ [[replicate (Z.to_nat size) 0%Z]])
                     (objs w ++ [MkParams (NdView (length (bufs w)) 0 (Z.to_nat size))
                                   ∅ 0 true]))
    by (unfold w1, run; by rewrite Hinit).
  set (n := Z.to_nat size) in *. assert (0 < n) by (unfold n; lia).
  assert (Hp1 : objs w1 !!! a = MkParams (NdView (length (bufs w)) 0 n) ∅ 0 true).
  { rewrite Hw1; cbn. unfold a. by rewrite lookup_total_app_r, Nat.sub_diag. }
  assert (Hb1 : bufs w1 !!! length (bufs w) = [replicate n 0%Z])
    by (rewrite Hw1; cbn; by rewrite bufs_app_new).
  assert (Hself : a < length (objs w1))
    by (rewrite Hw1; cbn; rewrite length_app; cbn; unfold a; lia).
  assert (Hok : view_ok w1 (_mem (objs w1 !!! a))).
  { rewrite Hp1. unfold view_ok, shape0; cbn. rewrite Hb1. rewrite Hw1; cbn.
    rewrite length_app; cbn. split; [lia|]. split; [lia|].
    constructor; [|done]. by rewrite length_replicate. }
  destruct (add_run a name shape w1 Hself Hok) as
    (Ho & Hi' & _ & Hok' & Hw' & Hrows & Hval & _ & Hfit & Hgrow).
  { rewrite Hp1; cbn. lia. }
  { left. by rewrite Hp1. }
  fold w2 in Ho, Hi', Hok', Hw', Hrows, Hval, Hfit, Hgrow.
  rewrite Hp1 in Ho, Hi', Hw', Hrows, Hval, Hfit, Hgrow.
  cbn [_mem _i _offsets width off base] in *.
  assert (Hone : shape0 w1 (NdView (length (bufs w)) 0 n) = 1)
    by (unfold shape0; cbn; by rewrite Hb1).
  rewrite Hone, decide_True in Hval by lia.
  eexists. split; [exact Hval|]. split; [done|]. split; [done|].
  split.
  { rewrite (get_in_bounds a name 0 shape w2); try done.
    - by rewrite Ho, lookup_insert_eq.
    - lia.
    - rewrite Hrows. lia. }
  unfold blob_data. cbn [blob_base blob_row blob_off blob_len].
  destruct (decide (0 + prod shape + 1 ≤ n)) as [Hf|Hg].
  - destruct (Hfit Hf) as [-> ->]. cbn [base off]. rewrite Hb1. cbn.
    rewrite drop_0, take_replicate. f_equal. lia.
  - destruct Hgrow as [-> ->]; [lia|]. cbn [base off].
    rewrite bufs_app_new. unfold grown. cbn [base off]. rewrite Hb1. cbn.
    match goal with |- context [[?x] !!! 0] => change ([x] !!! 0) with x end.
    rewrite !drop_0, take_replicate, <- replicate_add, take_replicate. f_equal. lia.
Qed.

(** ** merge: what makes it fail, what makes it return *)

(** X12: a merge never returns when the parent is among the children
    or a child is listed twice: it raises. *)
Theorem merge_needs_distinct (self : nat) (others : list nat) (w : world) :
  self ∈ others ∨ ¬ NoDup others →
  ∃ e, value (merge_params self others) w = Raise e.
Proof.
  intros Hbad. unfold value.
  destruct (merge_params self others w) as [[[]|e] w'] eqn:Hrun; [|by exists e].
  exfalso.
  assert (Hne : others ≠ []).
  { intros ->. destruct Hbad as [Hin|Hdup]; [by apply elem_of_nil in Hin|].
    apply Hdup. constructor. }
  destruct (merge_params_ok _ _ _ _ Hne Hrun)
    as (m0 & _ & _ & Hnd & Hnin & _).
  by destruct Hbad.
Qed.

Lemma broadcast_one_row (rows k : nat) (r : list Z) :
  length r = k → broadcast rows k [r] = Some (replicate rows r).
Proof.
  intros Hk. unfold broadcast.
  assert (stretch rows [r] = Some (replicate rows r)) as ->.
  { unfold stretch. case_decide as Hrows; [|done]. by rewrite <- Hrows. }
  change (mapM (stretch k) (replicate rows r) = Some (replicate rows r)).
  by apply mapM_stretch_same, Forall_replicate.
Qed.

Lemma merge_loop_succeeds (self : nat) (others : list nat) :
  ∀ w,
  let p := objs w !!! self in
  let pm := _mem p in
  self < length (objs w) →
  allow_resize p = false →
  NoDup others → self ∉ others →
  _i p + committed w others ≤ width pm →
  view_ok w pm →
  (∀ r, r ∈ others →
     allow_resize (objs w !!! r) = true ∧ child_ok w pm r ∧
     shape0 w (_mem (objs w !!! r)) = 1) →
  value (merge_loop self others) w = Ok tt.
Proof.
  induction others as [|other rest IH]; intros w p pm Hself Hfrozen Hnd Hnin Hfit Hok Hch.
  { done. }
  apply NoDup_cons in Hnd as [Hnotin Hnd].
  apply not_elem_of_cons in Hnin as [Hne Hnin].
  assert (Hsum : committed w (other :: rest) =
                 _i (objs w !!! other) + 1 + committed w rest) by done.
  destruct (Hch other) as (Hres & (Hoko & Hio & Hbase) & Hone); [by left|].
  set (o := objs w !!! other) in *.
  assert (Hstep : ∃ w2, merge_step self other w = (Ok tt, w2)).
  { rewrite merge_step_run. fold o.
    rewrite get_blob_fit by (fold p pm; lia). fold p pm.
    set (w1 := World _ _).
    assert (Ho1 : objs w1 !!! other = o)
      by (unfold w1; cbn; by rewrite obj_alter_ne).
    rewrite replace_mem_run by (by rewrite Ho1). rewrite Ho1.
    assert (Hvd : view_data w1 (cols (_mem o) 0 (_i o)) =
                  [take (_i o) (drop (off (_mem o)) ((bufs w !!! base (_mem o)) !!! 0))]).
    { pose proof (view_row0 w (_mem o) (_i o) Hoko Hio) as H0.
      pose proof (view_rows_length w (_mem o) (_i o) Hoko Hio) as Hl.
      change (view_data w1 (cols (_mem o) 0 (_i o)))
        with (view_data w (cols (_mem o) 0 (_i o))).
      assert (Hlen : length (view_data w (cols (_mem o) 0 (_i o))) = 1).
      { unfold view_data. rewrite length_fmap. unfold cols; cbn. exact Hone. }
      destruct (view_data w (cols (_mem o) 0 (_i o))) as [|r [|??]]; try done.
      change ([r] !!! 0) with r in H0. by rewrite H0. }
    rewrite Hvd, broadcast_one_row; [eauto|].
    destruct (view_ok_row0 w (_mem o)) as (rest' & _ & Hlen); [done|].
    rewrite length_take, length_drop. cbn [width]. lia. }
  destruct Hstep as [w2 Hstep].
  destruct (merge_step_ok self other w w2 Hfrozen Hstep)
    as (_ & _ & Hroom & m & _ & Hw2). fold p o in Hroom, Hw2.
  destruct (merge_step_bufs self other w w2 Hfrozen Hstep Hok Hoko Hio)
    as (Hok2 & Hlen2 & Hother & _). fold p pm in Hok2, Hother.
  assert (Hp2 : objs w2 !!! self = set_i (_i p + _i o) p).
  { rewrite Hw2; cbn. by apply step_objs_self. }
  assert (Hfr : ∀ r, r ∈ rest → objs w2 !!! r = objs w !!! r).
  { intros r Hr. rewrite Hw2; cbn. apply step_objs_frame; by intros ->. }
  unfold value. rewrite merge_loop_cons, Hstep.
  apply IH; try done.
  - rewrite Hw2; cbn. by rewrite !length_alter.
  - by rewrite Hp2.
  - rewrite Hp2, (committed_ext w2 w) by done. cbn. fold pm. lia.
  - by rewrite Hp2.
  - intros r Hr. rewrite Hp2, Hfr by done. cbn [_mem set_i]. fold pm.
    destruct (Hch r) as (Hresr & (Hokr & Hir & Hbr) & Honer); [by right|].
    split; [done|].
    assert (Hsame : bufs w2 !!! base (_mem (objs w !!! r))
                    = bufs w !!! base (_mem (objs w !!! r)))
      by (by apply Hother).
    split.
    + unfold child_ok. rewrite Hfr by done.
      split; [|done]. apply (view_ok_transfer w w2); [lia|done|done].
    + unfold shape0 in *. by rewrite Hsame.
Qed.

(** X13: a merge of well-formed arenas returns.  When the children
    are pairwise distinct resizable arenas other than the parent, each
    in bounds on a one-row buffer of its own with its cursor within
    its width, and the parent is in bounds with its guard column inside
    its buffer and either resizable or wide enough, [merge_params]
    raises nothing. *)
Theorem merge_succeeds (self : nat) (others : list nat) (w : world) :
  let p := objs w !!! self in
  let pm := _mem p in
  self < length (objs w) →
  NoDup others → self ∉ others →
  view_ok w pm → _i p + 1 ≤ width pm →
  allow_resize p = true ∨ _i p + committed w others ≤ width pm →
  (∀ r, r ∈ others →
     allow_resize (objs w !!! r) = true ∧ child_ok w pm r ∧
     shape0 w (_mem (objs w !!! r)) = 1) →
  value (merge_params self others) w = Ok tt.
Proof.
  intros p pm Hself Hnd Hnin Hok Hi Hsz Hch.
  destruct (decide (others = [])) as [->|Hne]; [done|].
  assert (Hall : Forall (λ r, allow_resize (objs w !!! r) = true) others).
  { apply Forall_forall. intros r Hr. by destruct (Hch r Hr). }
  unfold value. rewrite merge_params_run by done. unfold sized. fold p pm.
  destruct (Nat.ltb_spec (width pm) (_i p + committed w others)) as [Hlt|Hge].
  - destruct Hsz as [Hres|?]; [|lia].
    pose proof (committed_pos w others Hne) as Hpos.
    rewrite realloc_run by (done || fold p pm; lia). fold p pm.
    set (n := _i p + committed w others) in *.
    set (w1 := frozen self _).
    assert (Hp1 : objs w1 !!! self =
                  set_allow_resize false (set_mem (NdView (length (bufs w)) 0 n) p)).
    { unfold w1; cbn. rewrite obj_alter_eq by (by rewrite length_alter).
      by rewrite obj_alter_eq. }
    assert (Hfr1 : ∀ r, r ∈ others → objs w1 !!! r = objs w !!! r).
    { intros r Hr. unfold w1; cbn. rewrite !obj_alter_ne; [done|by intros ->..]. }
    apply (merge_loop_succeeds self others w1); try done.
    + unfold w1; cbn. by rewrite !length_alter.
    + by rewrite Hp1.
    + rewrite Hp1, (committed_ext w1 w) by done. cbn. unfold n. lia.
    + rewrite Hp1. cbn [_mem set_allow_resize set_mem].
      apply view_ok_grown; [done|lia|unfold n; lia].
    + intros r Hr. rewrite Hp1, Hfr1 by done. cbn [_mem set_allow_resize set_mem].
      destruct (Hch r Hr) as (Hresr & (Hokr & Hir & Hbr) & Honer).
      pose proof Hokr as (Hbase & _).
      assert (Hsame : bufs w1 !!! base (_mem (objs w !!! r))
                      = bufs w !!! base (_mem (objs w !!! r)))
        by (unfold w1; cbn; by apply bufs_app_old).
      split; [done|]. split.
      * unfold child_ok. rewrite Hfr1 by done. split; [|split; [done|cbn; lia]].
        apply (view_ok_transfer w w1); [|done|done].
        unfold w1; cbn. rewrite length_app. lia.
      * unfold shape0 in *. by rewrite Hsame.
  - set (w1 := frozen self w).
    assert (Hp1 : objs w1 !!! self = set_allow_resize false p)
      by (unfold w1; cbn; by rewrite obj_alter_eq).
    assert (Hfr1 : ∀ r, r ∈ others → objs w1 !!! r = objs w !!! r).
    { intros r Hr. unfold w1; cbn. rewrite obj_alter_ne; [done|by intros ->]. }
    apply (merge_loop_succeeds self others w1); try done.
    + unfold w1; cbn. by rewrite length_alter.
    + by rewrite Hp1.
    + rewrite Hp1, (committed_ext w1 w) by done. cbn. fold pm. lia.
    + by rewrite Hp1.
    + intros r Hr. rewrite Hp1, Hfr1 by done. cbn [_mem set_allow_resize].
      destruct (Hch r Hr) as (Hresr & Hcok & Honer).
      split; [done|]. split; [|done].
      unfold child_ok in *. by rewrite Hfr1.
Qed.

(** The cells that merge leaves alone: the committed columns of the
    parent, and every buffer other than the parent's. *)
Lemma merge_params_parent_cells (self : nat) (others : list nat) (w w' : world) :
  let p := objs w !!! self in
  let pm := _mem p in
  let pm' := _mem (objs w' !!! self) in
  others ≠ [] →
  merge_params self others w = (Ok tt, w') →
  view_ok w pm → _i p + 1 ≤ width pm →
  (∀ r, r ∈ others → child_ok w pm r) →
  view_ok w' pm' ∧
  (∀ a n, a + n ≤ _i p →
     take n (drop (off pm' + a) (buf_row0 w' (base pm'))) =
     take n (drop (off pm + a) (buf_row0 w (base pm)))) ∧
  (∀ b, b < length (bufs w) → b ≠ base pm → bufs w' !!! b = bufs w !!! b).
Proof.
  intros p pm pm' Hne Hrun Hokp Hip Hch.
  destruct (merge_params_sized _ _ _ _ Hne Hrun)
    as (bs & m0 & Hall & Hloop & Hm0 & Hwide). fold p pm in Hm0, Hwide.
  set (w1 := frozen self _) in Hloop.
  pose proof (merge_loop_ok self others w1 w' (frozen_self _ _) Hloop)
    as (_ & Hnin & _ & _ & _ & _ & Hs' & _).
  assert (Hself : self < length (objs w)) by (apply wide_in_range; fold p pm; lia).
  assert (Hp1 : objs w1 !!! self = set_allow_resize false (set_mem m0 p)).
  { unfold w1; cbn. rewrite obj_alter_eq by (by rewrite length_alter).
    by rewrite obj_alter_eq. }
  assert (Hfr1 : ∀ r, r ∈ others → objs w1 !!! r = objs w !!! r).
  { intros r Hr. unfold w1; cbn. rewrite !obj_alter_ne; [done|by intros ->..]. }
  pose proof Hokp as (Hbp & Hrp & _).
  assert (view_ok w1 m0 ∧ length (bufs w) ≤ length bs ∧
          (∀ b, b < length (bufs w) → bs !!! b = bufs w !!! b) ∧
          (∀ r, r ∈ others → base (_mem (objs w !!! r)) ≠ base m0) ∧
          (∀ a n, a + n ≤ _i p →
             take n (drop (off m0 + a) ((bs !!! base m0) !!! 0)) =
             take n (drop (off pm + a) (buf_row0 w (base pm)))) ∧
          (∀ b, b < length (bufs w) → b ≠ base pm → b ≠ base m0))
    as (Hok1 & Hlen & Hold & Hbase & Hcells & Hnew).
  { destruct Hm0 as [[-> ->]|(-> & Hres & Hlt & _ & Hre)].
    - split; [by apply (view_ok_transfer w)|]. split; [done|]. split; [done|].
      split; [intros r Hr; by destruct (Hch r Hr) as (_ & _ & ?)|].
      split; [done|done].
    - pose proof (committed_pos w others Hne).
      rewrite realloc_run in Hre by (fold p pm; done || lia). fold p pm in Hre.
      injection Hre as <-.
      split; [apply view_ok_grown; [done|lia..]|].
      split; [rewrite length_app; lia|].
      split; [intros b Hb; by apply bufs_app_old|].
      split.
      { intros r Hr. destruct (Hch r Hr) as ((Hb & _) & _ & _). cbn. cbn in Hb. lia. }
      split; [|cbn; intros; lia].
      intros a n Han. cbn [base off]. rewrite bufs_app_new.
      rewrite (grown_cells w pm (_i p + 1)); [done|done|lia|done|lia]. }
  destruct (merge_loop_bufs self others w1 w' (frozen_self _ _) Hloop)
    as (Hok' & Hother & Hkeep & _).
  { by rewrite Hp1. }
  { intros r Hr. destruct (Hch r Hr) as (Hokr & Hir & _).
    unfold child_ok. rewrite Hp1, Hfr1 by done. cbn.
    split; [|split; [done|by apply Hbase]].
    pose proof Hokr as (Hb & _).
    apply (view_ok_transfer w w1); [done| |done]. by apply Hold. }
  rewrite Hp1 in Hok', Hother, Hkeep, Hs'; cbn in Hok', Hother, Hkeep, Hs'.
  assert (Hpm' : pm' = m0) by (unfold pm'; by rewrite Hs').
  rewrite Hpm'. split; [done|]. split.
  - intros a n Han. rewrite Hkeep by lia. by apply Hcells.
  - intros b Hb Hbpm. rewrite Hother by (by apply Hnew). by apply Hold.
Qed.

(** X14: a merge keeps what the parent held and what it does not own.
    After a merge that returns, on a parent that was in bounds with
    its guard column inside the buffer and children in bounds on
    buffers other than the parent's, every value blob of the parent
    recorded within its cursor is returned by [get] with the shape and
    the content it had, and no buffer of the store other than the
    parent's has changed. *)
Theorem merge_keeps_parent_blobs (self : nat) (others : list nat) (w w' : world)
    (name : string) (o : nat) (s : list nat) :
  let p := objs w !!! self in
  others ≠ [] →
  merge_params self others w = (Ok tt, w') →
  view_ok w (_mem p) → _i p + 1 ≤ width (_mem p) →
  (∀ r, r ∈ others → child_ok w (_mem p) r) →
  String.prefix "d_" name = false →
  _offsets p !! name = Some (o, s) →
  o + prod s ≤ _i p →
  (∃ b b', value (get self name) w = Ok (Some b) ∧
           value (get self name) w' = Ok (Some b') ∧
           blob_shape b = s ∧ blob_shape b' = s ∧
           blob_data w' b' = blob_data w b) ∧
  (∀ b, b < length (bufs w) → b ≠ base (_mem p) → bufs w' !!! b = bufs w !!! b).
Proof.
  intros p Hne Hrun Hok Hi Hch Hpre Hent Hin. subst p.
  destruct (merge_params_parent_cells _ _ _ _ Hne Hrun Hok Hi Hch)
    as (Hok' & Hcells & Hother).
  destruct (merge_params_ok _ _ _ _ Hne Hrun)
    as (m0 & _ & Hwide & _ & _ & _ & _ & Hs & _).
  split; [|done].
  pose proof Hok as (_ & Hr & _). pose proof Hok' as (_ & Hr' & _).
  pose proof (committed_pos w others Hne).
  eexists _, _.
  split; [apply get_in_bounds; try done; lia|].
  split; [apply get_in_bounds; try done; rewrite Hs; cbn; [done|lia]|].
  split; [done|]. split; [done|].
  unfold blob_data; cbn. by apply Hcells.
Qed.

(** ** [cat_inputs]: concatenation and its backward pass *)

Lemma zip_with_app_assoc (P A R : list (list Z)) :
  zip_with app P (zip_with app A R) = zip_with app (zip_with app P A) R.
Proof.
  revert A R. induction P as [|p P IH]; intros [|a A] [|r R]; cbn; try done.
  by rewrite IH, app_assoc.
Qed.

Lemma slice_middle (s wa : nat) (P A R : list (list Z)) :
  length P = length A → length R = length A →
  Forall (λ r, length r = s) P → Forall (λ r, length r = wa) A →
  (λ r, take wa (drop s r)) <$> zip_with app P (zip_with app A R) = A.
Proof.
  revert A R. induction P as [|p P IH]; intros [|a A] [|r R]; cbn; try done.
  intros [= HP] [= HR] HfP HfA.
  apply Forall_cons in HfP as [Hp HfP]. apply Forall_cons in HfA as [Ha HfA].
  rewrite IH by done. f_equal.
  rewrite drop_app_length' by done. by rewrite take_app_length'.
Qed.

Lemma length_hrows (k : nat) (inputs : list array2) :
  Forall (λ a, length (rows a) = k) inputs → length (hrows k inputs) = k.
Proof.
  induction 1 as [|a l Ha _ IH]; cbn; [by rewrite length_replicate|].
  rewrite length_zip_with. fold (hrows k l). lia.
Qed.

Lemma zip_app_widths (a b : nat) (A B : list (list Z)) :
  Forall (λ r, length r = a) A → Forall (λ r, length r = b) B →
  Forall (λ r, length r = a + b) (zip_with app A B).
Proof.
  intros HA. revert B. induction HA as [|x A Hx _ IH]; intros B HB; [done|].
  destruct HB as [|y B Hy HB]; cbn; [done|].
  constructor; [rewrite length_app; lia|by apply IH].
Qed.

Lemma hrows_widths (k : nat) (inputs : list array2) :
  Forall array2_ok inputs →
  Forall (λ r, length r = sum_list (ncols <$> inputs)) (hrows k inputs).
Proof.
  induction 1 as [|a l Ha _ IH]; cbn.
  - by apply Forall_replicate.
  - fold (hrows k l). by apply zip_app_widths.
Qed.

Lemma forallb_rows (k : nat) (inputs : list array2) :
  forallb (λ b, length (rows b) =? k) inputs = true ↔
  Forall (λ a, length (rows a) = k) inputs.
Proof.
  rewrite forallb_forall, Forall_forall. split; intros H a Ha.
  - apply Nat.eqb_eq, H. by apply list_elem_of_In.
  - apply Nat.eqb_eq, H. by apply list_elem_of_In.
Qed.

Lemma hstack_run (k : nat) (inputs : list array2) :
  inputs ≠ [] →
  Forall (λ a, length (rows a) = k) inputs →
  hstack inputs = Some (Array2 (sum_list (ncols <$> inputs)) (hrows k inputs)).
Proof.
  intros Hne Hk. destruct inputs as [|a l]; [done|]. unfold hstack.
  pose proof Hk as Hk'. apply Forall_cons in Hk' as [Ha _]. rewrite Ha.
  by rewrite (proj2 (forallb_rows k (a :: l)) Hk).
Qed.

(** The pieces that the backward pass cuts out of a concatenation are
    the inputs, whatever stands to their left. *)
Lemma seq_grads_hrows (k : nat) (inputs : list array2) :
  ∀ (s : nat) (P : list (list Z)),
  Forall array2_ok inputs →
  Forall (λ a, length (rows a) = k) inputs →
  length P = k → Forall (λ r, length r = s) P →
  seq_grads (Array2 (s + sum_list (ncols <$> inputs))
                    (zip_with app P (hrows k inputs)))
            s (ncols <$> inputs) = inputs.
Proof.
  induction inputs as [|a l IH]; intros s P Hok Hk HP Hs; [done|].
  apply Forall_cons in Hok as [Ha Hok]. apply Forall_cons in Hk as [Hka Hk].
  cbn [fmap list_fmap seq_grads sum_list sum_list_with hrows foldr].
  fold (hrows k l). unfold id. f_equal.
  - unfold slice_cols. cbn [ncols rows].
    rewrite !Nat.min_l by lia.
    replace (s + ncols a - s) with (ncols a) by lia.
    rewrite slice_middle; [by destruct a|lia|by rewrite length_hrows|done|done].
  - rewrite zip_with_app_assoc.
    replace (s + (ncols a + sum_list (ncols <$> l)))
      with (s + ncols a + sum_list (ncols <$> l)) by lia.
    apply IH; try done.
    + rewrite length_zip_with. lia.
    + by apply zip_app_widths.
Qed.

Lemma zip_nil_app (R : list (list Z)) :
  zip_with app (replicate (length R) []) R = R.
Proof. induction R as [|r R IH]; cbn; [done|by rewrite IH]. Qed.

(** X15: the backward pass of [cat_inputs] undoes its forward pass.
    For a non-empty list of 2-D arrays with the same number of rows,
    [begin_update] returns their concatenation along the columns, as
    wide as the inputs together and with as many rows, and
    [finish_update] applied to that output returns the inputs. *)
Theorem cat_inputs_round_trip (k : nat) (inputs : list array2) :
  inputs ≠ [] →
  Forall array2_ok inputs →
  Forall (λ a, length (rows a) = k) inputs →
  ∃ X finish_update,
    cat_inputs_begin_update inputs = Some (X, finish_update) ∧
    ncols X = sum_list (ncols <$> inputs) ∧
    length (rows X) = k ∧ array2_ok X ∧
    finish_update X = inputs.
Proof.
  intros Hne Hok Hk. unfold cat_inputs_begin_update.
  rewrite (hstack_run k) by done. cbn.
  eexists _, _. split; [reflexivity|]. cbn.
  split; [done|]. split; [by apply length_hrows|].
  split; [by apply hrows_widths|].
  unfold cat_inputs_finish_update.
  pose proof (seq_grads_hrows k inputs 0 (replicate k []) Hok Hk) as H.
  assert (Hz : zip_with app (replicate k []) (hrows k inputs) = hrows k inputs).
  { rewrite <- (length_hrows k inputs Hk) at 1. apply zip_nil_app. }
  rewrite Hz in H. apply H.
  - by rewrite length_replicate.
  - by apply Forall_replicate.
Qed.

Lemma zip_with_fmap_same {A B C D} (f : B → C → D) (g : A → B) (h : A → C)
    (l : list A) :
  zip_with f (g <$> l) (h <$> l) = (λ x, f (g x) (h x)) <$> l.
Proof. induction l; cbn; by f_equal. Qed.

Lemma hrows_cons (k : nat) (a : array2) (l : list array2) :
  hrows k (a :: l) = zip_with app (rows a) (hrows k l).
Proof. done. Qed.

Lemma seq_grads_widths (g : array2) (lengths : list nat) :
  ∀ s, s + sum_list lengths ≤ ncols g →
  ncols <$> seq_grads g s lengths = lengths ∧
  Forall (λ a, length (rows a) = length (rows g)) (seq_grads g s lengths) ∧
  hrows (length (rows g)) (seq_grads g s lengths) =
    (λ r, take (sum_list lengths) (drop s r)) <$> rows g.
Proof.
  induction lengths as [|l ls IH]; intros s Hs.
  - split; [done|]. split; [done|]. cbn.
    induction (rows g) as [|r G IHG]; cbn; [done|by rewrite IHG].
  - cbn [sum_list sum_list_with] in *. unfold id in *.
    destruct (IH (s + l)) as (Hw & Hk & Hrows); [lia|].
    cbn [seq_grads]. rewrite hrows_cons, fmap_cons.
    split; [|split].
    + rewrite Hw. f_equal. unfold slice_cols; cbn. lia.
    + constructor; [|done]. unfold slice_cols; cbn. by rewrite length_fmap.
    + rewrite Hrows. unfold slice_cols. cbn [rows].
      rewrite !Nat.min_l by lia.
      replace (s + l - s) with l by lia.
      rewrite zip_with_fmap_same. apply list_fmap_ext. intros _ r _. cbn.
      rewrite <- (drop_drop r l s). apply take_take_drop.
Qed.

(** X16: the pieces of the backward pass tile the gradient.  For a
    gradient whose width is the sum of the recorded widths,
    [finish_update] returns one piece per input, of the recorded
    widths, and their concatenation along the columns is the gradient
    again. *)
Theorem cat_inputs_split_hstack (lengths : list nat) (gradient : array2) :
  lengths ≠ [] →
  array2_ok gradient →
  sum_list lengths = ncols gradient →
  ncols <$> cat_inputs_finish_update lengths gradient = lengths ∧
  hstack (cat_inputs_finish_update lengths gradient) = Some gradient.
Proof.
  intros Hne Hok Hsum. unfold cat_inputs_finish_update.
  destruct (seq_grads_widths gradient lengths 0) as (Hw & Hk & Hrows); [lia|].
  split; [done|].
  rewrite (hstack_run (length (rows gradient))); [|by destruct lengths|done].
  rewrite Hw, Hrows, Hsum. destruct gradient as [W G]. cbn in *. f_equal. f_equal.
  rewrite <- (list_fmap_id G) at 2. apply list_fmap_ext. intros i r Hr.
  cbn. rewrite drop_0. apply take_ge.
  unfold array2_ok in Hok. cbn in Hok. rewrite Forall_forall in Hok.
  rewrite (Hok r); [done|]. by eapply list_elem_of_lookup_2.
Qed.

(** ** The further statements on the sample stores *)

Lemma three_arenas_ok (r : nat) : r < 3 → arena_ok three_arenas r.
Proof.
  intros Hr. split; [by apply three_arenas_view_ok|].
  destruct r as [|[|[|r]]]; [..|lia].
  - split; [vm_compute; lia|].
    assert (_offsets (objs three_arenas !!! 0) = <["W" := (0, [2])]> ∅) as ->
      by (vm_compute; reflexivity).
    intros name o s [[_ [= <- <-]]|[_ H]]%lookup_insert_Some; [vm_compute; lia|done].
  - split; [vm_compute; lia|].
    assert (_offsets (objs three_arenas !!! 1) = <["V" := (0, [3])]> ∅) as ->
      by (vm_compute; reflexivity).
    intros name o s [[_ [= <- <-]]|[_ H]]%lookup_insert_Some; [vm_compute; lia|done].
  - split; [vm_compute; lia|].
    assert (_offsets (objs three_arenas !!! 2) = <["U" := (0, [2])]> ∅) as ->
      by (vm_compute; reflexivity).
    intros name o s [[_ [= <- <-]]|[_ H]]%lookup_insert_Some; [vm_compute; lia|done].
Qed.

Lemma three_arenas_child_ok (r : nat) :
  r = 1 ∨ r = 2 →
  allow_resize (objs three_arenas !!! r) = true ∧
  child_ok three_arenas (_mem (objs three_arenas !!! 0)) r ∧
  shape0 three_arenas (_mem (objs three_arenas !!! r)) = 1.
Proof.
  intros [-> | ->]; (split; [reflexivity|]); (split; [|reflexivity]);
    (split; [apply three_arenas_view_ok; lia|]); split; vm_compute; (lia || discriminate).
Qed.

Lemma add_frame_witness :
  ∃ k, length k ≤ 1 ∧
       bufs (run (add 0 "b" [30]) three_arenas) = bufs three_arenas ++ k.
Proof.
  destruct (add_frame 0 "b" [30] three_arenas) as (_ & _ & _ & _ & _ & H).
  - vm_compute; lia.
  - exact H.
Defined.

Lemma add_on_frozen_full_witness :
  ∃ e, NotResizable e ∧
    add 1 "X" [2] merged_once =
      (Raise e,
       World (bufs merged_once)
         (alter (set_offsets (<["X" := (_i (objs merged_once !!! 1), [2])]>
                                (_offsets (objs merged_once !!! 1)))) 1
            (objs merged_once))).
Proof.
  apply (add_on_frozen_full 1 "X" [2] merged_once).
  - reflexivity.
  - vm_compute; lia.
Defined.

Lemma add_on_merged_child_witness :
  ∃ e, NotResizable e ∧ value (add 1 "X" []) merged_once = Raise e ∧
       bufs (run (add 1 "X" []) merged_once) = bufs merged_once.
Proof.
  apply (add_on_merged_child 0 [1] small_parent merged_once 1 "X" []).
  - vm_compute; reflexivity.
  - apply elem_of_cons; by left.
Defined.

Lemma add_keeps_arena_ok_witness :
  arena_ok (run (add 0 "b" [30]) three_arenas) 0.
Proof.
  destruct (add_keeps_arena_ok 0 "b" [30] three_arenas) as (H & _).
  - vm_compute; lia.
  - apply three_arenas_ok; lia.
  - left; reflexivity.
  - exact H.
Defined.

Lemma add_get_round_trip_witness :
  ∃ b, value (add 0 "b" [30]) three_arenas = Ok b ∧
       value (get 0 "b") (run (add 0 "b" [30]) three_arenas) = Ok (Some b).
Proof.
  destruct (add_get_round_trip 0 "b" [30] three_arenas)
    as (b & Hadd & _ & _ & _ & Hget & _).
  - vm_compute; lia.
  - apply three_arenas_ok; lia.
  - reflexivity.
  - left; reflexivity.
  - reflexivity.
  - exists b. by split.
Defined.

Lemma add_preserves_blobs_witness :
  ∃ b', value (get 0 "W") (run (add 0 "b" [30]) three_arenas) = Ok (Some b') ∧
        blob_data (run (add 0 "b" [30]) three_arenas) b' = [5; 6]%Z.
Proof.
  destruct (add_preserves_blobs 0 "b" [30] three_arenas "W" 0 [2])
    as (b & b' & Hb & Hb' & _ & _ & Hd).
  - vm_compute; lia.
  - apply three_arenas_ok; lia.
  - left; reflexivity.
  - discriminate.
  - reflexivity.
  - reflexivity.
  - exists b'. split; [exact Hb'|]. rewrite Hd.
    vm_compute in Hb. injection Hb as <-. vm_compute; reflexivity.
Defined.

Lemma add_blob_disjoint_witness :
  ∃ b b', value (add 0 "b" [3]) three_arenas = Ok b ∧
          value (get 0 "W") (run (add 0 "b" [3]) three_arenas) = Ok (Some b') ∧
          blob_data (blob_store b [7; 8; 9]%Z (run (add 0 "b" [3]) three_arenas)) b'
            = blob_data (run (add 0 "b" [3]) three_arenas) b'.
Proof.
  destruct (add_blob_disjoint 0 "b" [3] three_arenas "W" 0 [2])
    as (b & b' & Hb & Hb' & Hw & _).
  - vm_compute; lia.
  - apply three_arenas_ok; lia.
  - reflexivity.
  - left; reflexivity.
  - discriminate.
  - reflexivity.
  - reflexivity.
  - exists b, b'. split; [exact Hb|]. split; [exact Hb'|]. by apply Hw.
Defined.

Lemma first_gradient_view_zero_witness :
  ∃ b, value (get 0 "d_W") three_arenas = Ok (Some b) ∧ blob_row b = 1 ∧
       blob_data (run (get 0 "d_W") three_arenas) b = [0; 0]%Z.
Proof.
  destruct (first_gradient_view_zero 0 "W" 0 [2] three_arenas)
    as (b & Hb & _ & Hr & _ & _ & _ & Hd).
  - vm_compute; lia.
  - apply three_arenas_view_ok; lia.
  - reflexivity.
  - reflexivity.
  - vm_compute; lia.
  - exists b. split; [exact Hb|]. split; [exact Hr|]. exact Hd.
Defined.

Lemma gradient_view_parallel_witness :
  get 0 "W" with_gradients = (Ok (Some (Blob 3 0 0 2 [2])), with_gradients) ∧
  get 0 "d_W" with_gradients = (Ok (Some (Blob 3 1 0 2 [2])), with_gradients).
Proof.
  destruct (gradient_view_parallel 0 "W" 0 [2] with_gradients) as (Hv & Hg & _).
  - split; [vm_compute; lia|]. split; [vm_compute; lia|].
    vm_compute. repeat constructor.
  - reflexivity.
  - reflexivity.
  - reflexivity.
  - vm_compute; lia.
  - split; [exact Hv|exact Hg].
Defined.

Lemma init_add_get_witness :
  ∃ b, value (add 0 "W" [2; 3]) (run (__init__ 4) empty_world) = Ok b ∧
       blob_data (run (add 0 "W" [2; 3]) (run (__init__ 4) empty_world)) b
         = replicate 6 0%Z.
Proof.
  destruct (init_add_get 4 "W" [2; 3] empty_world) as (_ & b & Hb & _ & _ & _ & Hd).
  - lia.
  - reflexivity.
  - exists b. split; [exact Hb|exact Hd].
Defined.

Lemma merge_needs_distinct_witness :
  ∃ e, value (merge_params 0 [1; 1]) three_arenas = Raise e.
Proof.
  apply (merge_needs_distinct 0 [1; 1] three_arenas).
  right. intros [Hn _]%NoDup_cons. apply Hn, elem_of_cons. by left.
Defined.

Lemma merge_succeeds_witness :
  value (merge_params 0 [1; 2]) three_arenas = Ok tt.
Proof.
  apply (merge_succeeds 0 [1; 2] three_arenas).
  - vm_compute; lia.
  - apply NoDup_cons. split.
    + intros [?|H]%elem_of_cons; [done|]. by apply elem_of_nil in H.
    + apply NoDup_singleton.
  - intros [?|[?|H]%elem_of_cons]%elem_of_cons; [done..|]. by apply elem_of_nil in H.
  - apply three_arenas_view_ok; lia.
  - vm_compute; lia.
  - left; reflexivity.
  - intros r [->|H]%elem_of_cons; [apply three_arenas_child_ok; by left|].
    apply list_elem_of_singleton in H as ->. apply three_arenas_child_ok; by right.
Defined.

Lemma merge_keeps_parent_blobs_witness :
  ∃ b', value (get 0 "W") (run (merge_params 0 [1; 2]) three_arenas) = Ok (Some b') ∧
        blob_data (run (merge_params 0 [1; 2]) three_arenas) b' = [5; 6]%Z.
Proof.
  destruct (merge_keeps_parent_blobs 0 [1; 2] three_arenas
              (run (merge_params 0 [1; 2]) three_arenas) "W" 0 [2])
    as ((b & b' & Hb & Hb' & _ & _ & Hd) & _).
  - done.
  - vm_compute; reflexivity.
  - apply three_arenas_view_ok; lia.
  - vm_compute; lia.
  - intros r [->|H]%elem_of_cons; [apply three_arenas_child_ok; by left|].
    apply list_elem_of_singleton in H as ->. apply three_arenas_child_ok; by right.
  - reflexivity.
  - reflexivity.
  - vm_compute; lia.
  - exists b'. split; [exact Hb'|]. rewrite Hd.
    vm_compute in Hb. injection Hb as <-. vm_compute; reflexivity.
Defined.

Lemma cat_inputs_round_trip_witness :
  ∃ X finish_update,
    cat_inputs_begin_update two_inputs = Some (X, finish_update) ∧
    ncols X = 3 ∧ finish_update X = two_inputs.
Proof.
  destruct (cat_inputs_round_trip 2 two_inputs) as (X & f & Hrun & Hn & _ & _ & Hf).
  - done.
  - repeat constructor.
  - repeat constructor.
  - exists X, f. split; [exact Hrun|]. split; [exact Hn|exact Hf].
Defined.

Lemma cat_inputs_split_hstack_witness :
  hstack (cat_inputs_finish_update [2; 1] (Array2 3 [[1; 2; 5]; [3; 4; 6]]%Z))
    = Some (Array2 3 [[1; 2; 5]; [3; 4; 6]]%Z).
Proof.
  destruct (cat_inputs_split_hstack [2; 1] (Array2 3 [[1; 2; 5]; [3; 4; 6]]%Z))
    as (_ & H).
  - done.
  - repeat constructor.
  - reflexivity.
  - exact H.
Defined.

Lemma add_grows_witness :
  bufs (run (add 0 "b" [30]) three_arenas) =
    bufs three_arenas ++
      [grown three_arenas (_mem (objs three_arenas !!! 0)) 3 60].
Proof.
  destruct (add_grows 0 "b" [30] three_arenas) as (H & _).
  - vm_compute; lia.
  - reflexivity.
  - apply three_arenas_view_ok; lia.
  - vm_compute; lia.
  - vm_compute; lia.
  - exact H.
Defined.
